(** * Usage metering, plan routing, response cache and request throttling

    A shallow embedding of the usage gate of the service:
    - [AuthSystem]: the per-user daily counter of [app/auth_system.py]
      ([register_user], [update_user_plan], [check_rate_limit],
      [increment_usage]) and the way [ask_question] of
      [app/main_monetized.py] combines them;
    - [LLMManager]: the plan-to-model routing of [app/llm_manager.py];
    - [FastChatbot]: the TTL cache inside [process_query_fast] of
      [app/fast_chatbot.py];
    - [RateLimiter]: the sliding-window limiter of
      [app/security_middleware.py].

    Python dictionaries whose iteration order is observed by the code
    ([users_db], searched by [user_id] in insertion order, and the cache,
    whose [min] breaks ties by insertion order) are association lists in
    insertion order.  The [defaultdict(list)] buckets of the limiter are
    finite maps.  Clock readings ([time.time()]) are exact rationals;
    calendar dates are the ISO strings the code stores and compares. *)

From Stdlib Require Import ZArith QArith Lia Lqa Ascii.
From stdpp Require Import gmap strings list pretty.

Local Open Scope string_scope.
Local Open Scope list_scope.

(** ** Python-style helpers *)

(** [s.split(sep)[0]]: the part of [s] before the first [sep]. *)
Fixpoint split_head (sep : ascii) (s : string) : string :=
  match s with
  | EmptyString => EmptyString
  | String c r => if decide (c = sep) then EmptyString else String c (split_head sep r)
  end.

(** [a or b] on optional strings: [None] and the empty string are falsy. *)
Definition or_else (a : option string) (b : string) : string :=
  match a with
  | Some s => if decide (s = "") then b else s
  | None => b
  end.

(** ** app/auth_system.py *)

Module AuthSystem.

Record Usage := mkUsage {
  daily_count : Z;
  last_reset : string
}.

(** One value of [users_db]; [updated_at] is absent until
    [update_user_plan] adds it. *)
Record User := mkUser {
  user_id : string;
  email : string;
  password : string;
  name : string;
  plan : string;
  created_at : string;
  usage : Usage;
  stripe_customer_id : option string;
  stripe_subscription_id : option string;
  updated_at : option string
}.

(** [self.users_db]: email -> user, in insertion order. *)
Definition users_db := list (string * User).

Definition set_usage (u : User) (g : Usage) : User :=
  mkUser (user_id u) (email u) (password u) (name u) (plan u) (created_at u)
         g (stripe_customer_id u) (stripe_subscription_id u) (updated_at u).

Definition set_plan (u : User) (p : string) (now_iso : string) : User :=
  mkUser (user_id u) (email u) (password u) (name u) p (created_at u)
         (usage u) (stripe_customer_id u) (stripe_subscription_id u) (Some now_iso).

(** The three integers read from the environment on every call of
    [check_rate_limit]. *)
Record Limits := mkLimits {
  FREE_TIER_DAILY_LIMIT : Z;
  PRO_TIER_DAILY_LIMIT : Z;
  BUSINESS_TIER_DAILY_LIMIT : Z
}.

(** The defaults of the three [os.getenv] calls. *)
Definition default_limits : Limits := mkLimits 10%Z 100%Z 1000%Z.

(** [limits.get(plan, 10)] *)
Definition limits_get (env : Limits) (p : string) : Z :=
  if decide (p = "free") then FREE_TIER_DAILY_LIMIT env
  else if decide (p = "pro") then PRO_TIER_DAILY_LIMIT env
  else if decide (p = "business") then BUSINESS_TIER_DAILY_LIMIT env
  else 10%Z.

(** [email in self.users_db] *)
Definition has_email (e : string) (db : users_db) : bool :=
  existsb (fun kv => bool_decide (kv.1 = e)) db.

(** The first record, in iteration order, whose [user_id] is [uid]:
    the record the [for]/[if] of the methods below stop at. *)
Fixpoint find_user (uid : string) (db : users_db) : option User :=
  match db with
  | [] => None
  | (_, u) :: rest => if decide (user_id u = uid) then Some u else find_user uid rest
  end.

Inductive RegisterResult :=
| Registered (uid mail nm pl token : string)
| RegisterFailed (error : string).

(** [register_user].  [hashed] is the result of [hash_password] (a salted
    bcrypt hash), [now_iso] and [today] the clock's timestamp and date,
    [token] the result of [generate_token]. *)
Definition register_user (mail hashed : string) (nm : option string)
    (now_iso today token : string) (db : users_db) : users_db * RegisterResult :=
  if has_email mail db then (db, RegisterFailed "User already exists")
  else
    let uid := "user_" +:+ pretty (length db + 1)%nat in
    let user := mkUser uid mail hashed (or_else nm (split_head "@"%char mail)) "free"
                       now_iso (mkUsage 0%Z today) None None None in
    (db ++ [(mail, user)], Registered uid mail (name user) "free" token).

Inductive UpdateResult :=
| PlanUpdated (pl : string)
| UpdateUserNotFound.

Fixpoint update_user_plan (uid new_plan now_iso : string) (db : users_db)
    : users_db * UpdateResult :=
  match db with
  | [] => ([], UpdateUserNotFound)
  | (e, u) :: rest =>
      if decide (user_id u = uid) then ((e, set_plan u new_plan now_iso) :: rest, PlanUpdated new_plan)
      else let '(rest', r) := update_user_plan uid new_plan now_iso rest in ((e, u) :: rest', r)
  end.

(** The three dictionaries [check_rate_limit] can return. *)
Inductive RateCheck :=
| RateOk (limit used remaining : Z) (pl : string)
| DailyLimitReached (limit used : Z) (pl : string)
| UserNotFound.

(** Lines 192-196: the daily reset. *)
Definition reset_if_needed (today : string) (g : Usage) : Usage :=
  if decide (last_reset g ≠ today) then mkUsage 0%Z today else g.

(** Lines 198-223: the comparison against the plan's limit. *)
Definition rate_decision (env : Limits) (u : User) : RateCheck :=
  let limit := limits_get env (plan u) in
  let current_count := daily_count (usage u) in
  if decide (current_count >= limit)%Z
  then DailyLimitReached limit current_count (plan u)
  else RateOk limit current_count (limit - current_count)%Z (plan u).

Fixpoint check_rate_limit (env : Limits) (today uid : string) (db : users_db)
    : users_db * RateCheck :=
  match db with
  | [] => ([], UserNotFound)
  | (e, u) :: rest =>
      if decide (user_id u = uid) then
        let u' := set_usage u (reset_if_needed today (usage u)) in
        ((e, u') :: rest, rate_decision env u')
      else let '(rest', r) := check_rate_limit env today uid rest in ((e, u) :: rest', r)
  end.

Definition bump (u : User) : User :=
  set_usage u (mkUsage (daily_count (usage u) + 1)%Z (last_reset (usage u))).

Fixpoint increment_usage (uid : string) (db : users_db) : users_db * bool :=
  match db with
  | [] => ([], false)
  | (e, u) :: rest =>
      if decide (user_id u = uid) then ((e, bump u) :: rest, true)
      else let '(rest', r) := increment_usage uid rest in ((e, u) :: rest', r)
  end.

(** ** app/main_monetized.py, [ask_question], lines 266-314

    The gate as the endpoint runs it: [check_rate_limit], the model call,
    [increment_usage].  [llm_success] is [llm_response['success']];
    [current_user] is [request.current_user].  The answer text and the
    model's name are left out of [Ok200]. *)
Inductive AskResponse :=
| BadRequest400
| TooManyRequests429 (limit used : Z) (pl : string)
| LlmFailed500
| Ok200 (used limit remaining : Z) (pl : string)
| Failed500.

Definition ask_question (env : Limits) (today : string) (current_user : User)
    (question : string) (llm_success : bool) (db : users_db) : users_db * AskResponse :=
  if decide (question = "") then (db, BadRequest400)
  else
    let '(db1, rate_check) := check_rate_limit env today (user_id current_user) db in
    match rate_check with
    | DailyLimitReached limit used pl => (db1, TooManyRequests429 limit used pl)
    | UserNotFound => (db1, Failed500)   (* rate_check['limit'] raises KeyError *)
    | RateOk limit used remaining _ =>
        if llm_success then
          let '(db2, _) := increment_usage (user_id current_user) db1 in
          (db2, Ok200 (used + 1)%Z limit (remaining - 1)%Z (plan current_user))
        else (db1, LlmFailed500)
    end.

(** A sequence of calls of the endpoint by one user: each call comes with
    the date on the clock and the outcome of its model call. *)
Fixpoint ask_many (env : Limits) (current_user : User) (question : string)
    (calls : list (string * bool)) (db : users_db) : users_db * list AskResponse :=
  match calls with
  | [] => (db, [])
  | (today, llm_success) :: more =>
      let '(db1, r) := ask_question env today current_user question llm_success db in
      let '(db2, rs) := ask_many env current_user question more db1 in
      (db2, r :: rs)
  end.

(** No record of [pre] carries the user id [uid]. *)
Definition unmatched (uid : string) (pre : users_db) : Prop :=
  Forall (fun kv => user_id kv.2 ≠ uid) pre.

(** [n] calls of [increment_usage] in a row. *)
Definition increment_n (uid : string) (n : nat) (db : users_db) : users_db :=
  Nat.iter n (fun d => (increment_usage uid d).1) db.

(** The stored window start of a user. *)
Definition window_start (uid : string) (db : users_db) : option string :=
  (fun u => last_reset (usage u)) <$> find_user uid db.

(** The number of calls of a run at which the stored window start
    changes: the calls that take the reset branch of lines 194-196
    (the branch is taken when the stored date is not today's, and it
    stores today's). *)
Fixpoint count_resets (env : Limits) (current_user : User) (question : string)
    (calls : list (string * bool)) (db : users_db) : nat :=
  match calls with
  | [] => 0
  | (today, llm_success) :: more =>
      let db1 := (ask_question env today current_user question llm_success db).1 in
      ((if decide (window_start (user_id current_user) db
                   = window_start (user_id current_user) db1) then 0 else 1)
       + count_resets env current_user question more db1)%nat
  end.

(** One reset at each of the boundaries that have gone by, in order; [days]
    lists the date that begins at each boundary.  This is the reading of
    the reset rule that acts at every boundary, against which the single
    reset of [reset_if_needed] is compared. *)
Definition reset_at_each (days : list string) (g : Usage) : Usage :=
  foldl (fun _ d => mkUsage 0%Z d) g days.

(** A record for the examples. *)
Definition sample_user (uid pl : string) (count : Z) (day : string) : User :=
  mkUser uid (uid +:+ "@example.org") "$2b$12$hash" uid pl
         "2024-01-01T09:00:00+00:00" (mkUsage count day) None None None.

Definition sample_db (pl : string) (count : Z) (day : string) : users_db :=
  [("u0@example.org", sample_user "u0" "pro" 3 "2024-01-01");
   ("u1@example.org", sample_user "u1" pl count day)].

(** [k] allowed answers in a row, from the stored count [c]. *)
Fixpoint countdown (limit c : Z) (pl : string) (k : nat) : list AskResponse :=
  match k with
  | O => []
  | S k' => Ok200 (c + 1) limit (limit - c - 1) pl :: countdown limit (c + 1) pl k'
  end.

(** The number of calls of a run whose date differs from the date before
    it, starting from the date [prev]. *)
Fixpoint date_changes (prev : string) (dates : list string) : nat :=
  match dates with
  | [] => 0
  | d :: more => ((if decide (prev = d) then 0 else 1) + date_changes d more)%nat
  end.

End AuthSystem.

(** ** app/llm_manager.py *)

Module LLMManager.

Definition get_llm_for_user (user_plan : string) : string :=
  if decide (user_plan = "business") then "claude" else "gemini".

End LLMManager.

(** [a < b] on clock readings, as a boolean. *)
Definition Qltb (a b : Q) : bool := if Qlt_le_dec a b then true else false.

(** ** app/fast_chatbot.py *)

Module FastChatbot.

(** The dictionary built by [_get_basic_context]; [None] is the empty
    dictionary used when that call failed. *)
Record BasicContext := mkContext {
  query_type : string;
  keywords : list string;
  context_timestamp : string
}.

(** The dictionary [result] of lines 82-89; its ['timestamp'] is an ISO
    string. *)
Record Result := mkResult {
  answer : string;
  confidence_score : Q;
  response_time : Q;
  context : option BasicContext;
  timestamp : string;
  from_cache : bool
}.

(** A value of [self.cache]: [{**result, 'timestamp': time.time()}], the
    same keys with the clock reading in place of the ISO string. *)
Record CachedData := mkCached {
  cached_answer : string;
  cached_confidence_score : Q;
  cached_response_time : Q;
  cached_context : option BasicContext;
  cached_timestamp : Q;
  cached_from_cache : bool
}.

Definition cached_of (result : Result) (now : Q) : CachedData :=
  mkCached (answer result) (confidence_score result) (response_time result)
           (context result) now (from_cache result).

(** [self.cache]: key -> cached data, in insertion order. *)
Definition cache := list (string * CachedData).

(** [self.cache_ttl = 300] and the literal bound of line 98. *)
Definition cache_ttl : Q := 300.
Definition cache_limit : nat := 100.

(** [f"{user_id}:{hash(query.lower().strip())}"], given the hash. *)
Definition _get_cache_key (query_hash : Z) (user_id : string) : string :=
  user_id +:+ ":" +:+ pretty query_hash.

(** [time.time() - timestamp < self.cache_ttl] *)
Definition _is_cache_valid (ttl now timestamp : Q) : bool :=
  Qltb (now - timestamp) ttl.

(** [self.cache[key]] *)
Fixpoint cache_lookup (key : string) (c : cache) : option CachedData :=
  match c with
  | [] => None
  | (k, v) :: rest => if decide (k = key) then Some v else cache_lookup key rest
  end.

(** [self.cache[key] = v]: a present key keeps its place, a new key goes
    last. *)
Fixpoint cache_store (key : string) (v : CachedData) (c : cache) : cache :=
  match c with
  | [] => [(key, v)]
  | (k, w) :: rest =>
      if decide (k = key) then (k, v) :: rest else (k, w) :: cache_store key v rest
  end.

(** [del self.cache[key]] *)
Fixpoint cache_delete (key : string) (c : cache) : cache :=
  match c with
  | [] => []
  | (k, w) :: rest => if decide (k = key) then rest else (k, w) :: cache_delete key rest
  end.

(** [min(..., key=...)] keeps the first of the smallest elements: a later
    element replaces the running minimum only when strictly smaller. *)
Fixpoint min_from (best : string * CachedData) (rest : cache) : string * CachedData :=
  match rest with
  | [] => best
  | x :: more =>
      if Qltb (cached_timestamp x.2) (cached_timestamp best.2)
      then min_from x more else min_from best more
  end.

(** [min(self.cache.keys(), key=lambda k: self.cache[k]['timestamp'])];
    [None] stands for the [ValueError] on an empty dictionary. *)
Definition oldest_key (c : cache) : option string :=
  match c with
  | [] => None
  | x :: rest => Some (min_from x rest).1
  end.

(** Lines 63-64: [cached_data['response_time'] = ...] and
    [cached_data['from_cache'] = True]. *)
Definition mark_hit (cached_data : CachedData) (elapsed : Q) : CachedData :=
  mkCached (cached_answer cached_data) (cached_confidence_score cached_data)
           elapsed (cached_context cached_data)
           (cached_timestamp cached_data) true.

(** Lines 58-65, the read path.  [start_time], [now] and [hit_time] are
    the clock readings of lines 55, 49 and 63.  A hit updates the stored
    dictionary in place and returns that same dictionary. *)
Definition get_cached (ttl start_time now hit_time : Q) (key : string) (c : cache)
    : cache * option CachedData :=
  match cache_lookup key c with
  | Some cached_data =>
      if _is_cache_valid ttl now (cached_timestamp cached_data) then
        let hit := mark_hit cached_data (hit_time - start_time) in
        (cache_store key hit c, Some hit)
      else (c, None)
  | None => (c, None)
  end.

(** Lines 91-100, the write path, for a bound [limit] on the number of
    entries. *)
Definition put_cached_limit (limit : nat) (key : string) (result : Result) (now : Q)
    (c : cache) : cache :=
  let c1 := cache_store key (cached_of result now) c in
  if decide (limit < length c1)%nat then
    match oldest_key c1 with
    | Some oldest => cache_delete oldest c1
    | None => c1
    end
  else c1.

Definition put_cached : string -> Result -> Q -> cache -> cache :=
  put_cached_limit cache_limit.

(** What [process_query_fast] returns: the stored dictionary on a hit, the
    fresh [result] otherwise. *)
Inductive Reply :=
| FromCache (cached_data : CachedData)
| Fresh (result : Result).

(** [process_query_fast], lines 55-102.  [result] is the dictionary built
    from the model's answer on a miss, [put_time] the clock reading of
    line 94. *)
Definition process_query_fast (query_hash : Z) (user_id : string)
    (start_time now hit_time : Q) (result : Result) (put_time : Q) (c : cache)
    : cache * Reply :=
  let cache_key := _get_cache_key query_hash user_id in
  match get_cached cache_ttl start_time now hit_time cache_key c with
  | (c1, Some cached_data) => (c1, FromCache cached_data)
  | (c1, None) => (put_cached cache_key result put_time c1, Fresh result)
  end.

(** A run of writes: each is a key, a result and the time of the write. *)
Fixpoint put_many (limit : nat) (writes : list (string * Result * Q)) (c : cache) : cache :=
  match writes with
  | [] => c
  | (key, result, now) :: more => put_many limit more (put_cached_limit limit key result now c)
  end.

(** The write path in the order the specification words it: when the cache
    is at capacity, remove the oldest entry, then insert. *)
Definition put_evict_first (limit : nat) (key : string) (result : Result) (now : Q)
    (c : cache) : cache :=
  let c0 := if decide (limit <= length c)%nat then
              match oldest_key c with
              | Some oldest => cache_delete oldest c
              | None => c
              end
            else c in
  cache_store key (cached_of result now) c0.

(** No stored entry is stamped later than [now]: the clock has not gone
    back since the entries were written. *)
Definition not_after (now : Q) (c : cache) : Prop :=
  Forall (fun kv => (cached_timestamp kv.2 <= now)%Q) c.

(** A result for the examples, as line 82 builds it. *)
Definition sample_result (a : string) : Result :=
  mkResult a 0.8 0.25 None "2024-03-05T10:00:00" false.

End FastChatbot.

(** ** app/security_middleware.py *)

Module RateLimiter.

Record Config := mkConfig {
  requests_per_minute : Z;
  requests_per_hour : Z
}.

(** The constructor's defaults. *)
Definition default_config : Config := mkConfig 60%Z 1000%Z.

(** [self.minute_buckets] and [self.hour_buckets]. *)
Record State := mkState {
  minute_buckets : gmap string (list Q);
  hour_buckets : gmap string (list Q)
}.

Definition initial : State := mkState ∅ ∅.

(** Reading a [defaultdict(list)]. *)
Definition bucket (m : gmap string (list Q)) (client_id : string) : list Q :=
  default [] (m !! client_id).

(** [_clean_old_requests]; [current_time] is its own clock reading. *)
Definition _clean_old_requests (current_time : Q) (b : list Q) (time_window : Q) : list Q :=
  List.filter (fun t => Qltb (current_time - t) time_window) b.

(** Which limit a 429 reports: its [detail] asks to retry after one minute
    or after one hour. *)
Inductive Window := Minute | Hour.

Inductive Outcome :=
| Allowed                            (* returns True *)
| TooManyRequests (detail : Window). (* HTTPException 429 *)

(** [check_rate_limit] for the client [client_id = _get_client_id(request)].
    [current_time] is the reading of line 42, [t_minute] and [t_hour] the
    readings inside the two clean-ups. *)
Definition check_rate_limit (cfg : Config) (client_id : string)
    (current_time t_minute t_hour : Q) (st : State) : State * Outcome :=
  let mb := _clean_old_requests t_minute (bucket (minute_buckets st) client_id) 60 in
  let hb := _clean_old_requests t_hour (bucket (hour_buckets st) client_id) 3600 in
  let st1 := mkState (<[client_id := mb]> (minute_buckets st))
                     (<[client_id := hb]> (hour_buckets st)) in
  if decide (Z.of_nat (length mb) >= requests_per_minute cfg)%Z then
    (st1, TooManyRequests Minute)
  else if decide (Z.of_nat (length hb) >= requests_per_hour cfg)%Z then
    (st1, TooManyRequests Hour)
  else
    (mkState (<[client_id := mb ++ [current_time]]> (minute_buckets st))
             (<[client_id := hb ++ [current_time]]> (hour_buckets st)),
     Allowed).

(** A run of calls: client and the three clock readings of each. *)
Fixpoint check_many (cfg : Config) (calls : list (string * Q * Q * Q)) (st : State)
    : State * list Outcome :=
  match calls with
  | [] => (st, [])
  | (client_id, current_time, t_minute, t_hour) :: more =>
      let '(st1, o) := check_rate_limit cfg client_id current_time t_minute t_hour st in
      let '(st2, os) := check_many cfg more st1 in
      (st2, o :: os)
  end.

(** Every client's minute bucket is within the limit. *)
Definition minute_bounded (cfg : Config) (st : State) : Prop :=
  ∀ c, (Z.of_nat (length (bucket (minute_buckets st) c)) ≤ requests_per_minute cfg)%Z.

End RateLimiter.

(** ** More of the Python runtime *)

(** [s.split(sep)] for a one-character separator: the pieces between the
    occurrences of [sep], empty pieces included. *)
Fixpoint split_on (sep : ascii) (s : string) : list string :=
  match s with
  | EmptyString => [EmptyString]
  | String c r =>
      if decide (c = sep) then EmptyString :: split_on sep r
      else match split_on sep r with
           | [] => [String c EmptyString]
           | w :: ws => String c w :: ws
           end
  end.

(** [c in s] for a character. *)
Fixpoint has_char (c : ascii) (s : string) : bool :=
  match s with
  | EmptyString => false
  | String c0 r => bool_decide (c0 = c) || has_char c r
  end.

(** [d[k] = v] on a dictionary in insertion order: a present key keeps its
    place, a new key goes last. *)
Fixpoint dict_set {V : Type} (k : string) (v : V) (d : list (string * V))
    : list (string * V) :=
  match d with
  | [] => [(k, v)]
  | (k0, v0) :: rest =>
      if decide (k0 = k) then (k0, v) :: rest else (k0, v0) :: dict_set k v rest
  end.

(** [d.get(k)] *)
Fixpoint dict_get {V : Type} (k : string) (d : list (string * V)) : option V :=
  match d with
  | [] => None
  | (k0, v0) :: rest => if decide (k0 = k) then Some v0 else dict_get k rest
  end.

(** ** app/auth_system.py: sessions and decorators *)

Module Sessions.
Import AuthSystem.

(** A value of [self.sessions]. *)
Record Session := mkSession {
  session_user_id : string;
  session_email : string;
  session_token : string;
  session_created_at : string
}.

(** [self.sessions]: session id -> session, in insertion order. *)
Definition sessions := list (string * Session).

Inductive LoginResult :=
| LoggedIn (uid mail nm pl token session_id : string)
| InvalidCredentials.

(** [login].  [verify_password] is the bcrypt check, [token] the result of
    [generate_token], [now_iso] the clock's timestamp. *)
Definition login (verify_password : string → string → bool)
    (mail pass token now_iso : string) (db : users_db) (ss : sessions)
    : sessions * LoginResult :=
  match dict_get mail db with
  | None => (ss, InvalidCredentials)
  | Some user =>
      if verify_password pass (password user) then
        let session_id := "session_" +:+ pretty (length ss + 1)%nat in
        (dict_set session_id
                  (mkSession (user_id user) (email user) token now_iso) ss,
         LoggedIn (user_id user) (email user) (name user) (plan user) token session_id)
      else (ss, InvalidCredentials)
  end.

(** The loop of [logout]: delete the first session that holds [token]. *)
Fixpoint remove_session (token : string) (ss : sessions) : sessions :=
  match ss with
  | [] => []
  | (sid, s) :: rest =>
      if decide (session_token s = token) then rest
      else (sid, s) :: remove_session token rest
  end.

Inductive LogoutResult :=
| LoggedOut
| InvalidToken.

(** [logout].  [token_valid] tells whether [verify_token] returned a
    payload. *)
Definition logout (token_valid : bool) (token : string) (ss : sessions)
    : sessions * LogoutResult :=
  if token_valid then (remove_session token ss, LoggedOut) else (ss, InvalidToken).

(** The copy [get_user_by_token] returns: the stored dictionary without its
    ['password']. *)
Record PublicUser := mkPublicUser {
  public_user_id : string;
  public_email : string;
  public_name : string;
  public_plan : string;
  public_created_at : string;
  public_usage : Usage;
  public_stripe_customer_id : option string;
  public_stripe_subscription_id : option string;
  public_updated_at : option string
}.

Definition without_password (u : User) : PublicUser :=
  mkPublicUser (user_id u) (email u) (name u) (plan u) (created_at u) (usage u)
               (stripe_customer_id u) (stripe_subscription_id u) (updated_at u).

(** [get_user_by_token].  [verify_token] decodes a token to the ['email'] of
    its payload, or to nothing when the token is invalid or expired. *)
Definition get_user_by_token (verify_token : string → option string)
    (token : string) (db : users_db) : option PublicUser :=
  match verify_token token with
  | None => None
  | Some mail => without_password <$> dict_get mail db
  end.

(** [auth_header.split(' ')[1] if auth_header.startswith('Bearer ') else
    auth_header]; [None] stands for the [IndexError]. *)
Definition extract_token (auth_header : string) : option string :=
  if String.prefix "Bearer " auth_header
  then split_on " "%char auth_header !! 1%nat
  else Some auth_header.

Inductive AuthOutcome :=
| Unauthorized401 (error : string)
| Authenticated (current_user : PublicUser).

(** [require_auth], up to the call of the wrapped function.  The decorator
    builds its own [AuthSystem()], whose [users_db] is the empty dictionary
    of the constructor. *)
Definition require_auth (verify_token : string → option string)
    (auth_header : option string) : AuthOutcome :=
  match auth_header with
  | None => Unauthorized401 "No authorization header"
  | Some h =>
      if decide (h = "") then Unauthorized401 "No authorization header"
      else match extract_token h with
           | None => Unauthorized401 "Invalid authorization header"
           | Some token =>
               match get_user_by_token verify_token token [] with
               | None => Unauthorized401 "Invalid or expired token"
               | Some user => Authenticated user
               end
           end
  end.

(** [plan_hierarchy.get(plan, 0)] *)
Definition plan_level (p : string) : Z :=
  if decide (p = "free") then 0%Z
  else if decide (p = "pro") then 1%Z
  else if decide (p = "business") then 2%Z
  else 0%Z.

Inductive PlanOutcome :=
| AuthenticationRequired401
| Forbidden403 (current_plan required_plan : string)
| PlanAccepted.

(** [require_plan(minimum_plan)], up to the call of the wrapped function;
    [current_user] is [request.current_user] when the attribute exists. *)
Definition require_plan (minimum_plan : string) (current_user : option PublicUser)
    : PlanOutcome :=
  match current_user with
  | None => AuthenticationRequired401
  | Some user =>
      if decide (plan_level (public_plan user) < plan_level minimum_plan)%Z
      then Forbidden403 (public_plan user) minimum_plan
      else PlanAccepted
  end.

(** The methods of [AuthSystem] that write [users_db]. *)
Inductive StoreOp :=
| OpRegister (mail hashed : string) (nm : option string) (now_iso today token : string)
| OpUpdatePlan (uid new_plan now_iso : string)
| OpCheck (env : Limits) (today uid : string)
| OpIncrement (uid : string).

Definition apply_op (db : users_db) (op : StoreOp) : users_db :=
  match op with
  | OpRegister mail hashed nm now_iso today token =>
      (register_user mail hashed nm now_iso today token db).1
  | OpUpdatePlan uid new_plan now_iso => (update_user_plan uid new_plan now_iso db).1
  | OpCheck env today uid => (check_rate_limit env today uid db).1
  | OpIncrement uid => (increment_usage uid db).1
  end.

(** The store after a run of calls, from the empty store of the
    constructor. *)
Definition run_ops (ops : list StoreOp) : users_db := foldl apply_op [] ops.

(** The record at position [i] carries the id [user_(i+1)] and the email it
    is filed under. *)
Definition numbered (db : users_db) : Prop :=
  ∀ i e u, db !! i = Some (e, u) → user_id u = "user_" +:+ pretty (S i) ∧ email u = e.

End Sessions.

(** ** app/main_monetized.py: analytics and dashboard *)

Module Endpoints.
Import AuthSystem.

(** The answer of [get_usage_analytics]; the ['llm'] statistics and the
    recommendations are left out of [AnalyticsOk], ['llm'] being reduced to
    the name of the model. *)
Inductive AnalyticsResponse :=
| AnalyticsOk (pl : string) (daily_usage : Z) (last_reset_date : string)
              (daily_limit used_today remaining : Z) (llm : string)
| AnalyticsFailed500.

(** [get_usage_analytics], lines 344-372.  A [rate_status] without
    ['remaining'] raises [KeyError], which the handler turns into 500. *)
Definition get_usage_analytics (env : Limits) (today : string) (current_user : User)
    (db : users_db) : users_db * AnalyticsResponse :=
  let '(db1, rate_status) := check_rate_limit env today (user_id current_user) db in
  let llm := LLMManager.get_llm_for_user (plan current_user) in
  match rate_status with
  | RateOk limit used remaining _ =>
      (db1, AnalyticsOk (plan current_user) (daily_count (usage current_user))
                        (last_reset (usage current_user)) limit used remaining llm)
  | DailyLimitReached _ _ _ => (db1, AnalyticsFailed500)
  | UserNotFound => (db1, AnalyticsFailed500)
  end.

(** [plan_distribution] of [admin_dashboard]. *)
Record PlanDistribution := mkDistribution {
  free_users : Z;
  pro_users : Z;
  business_users : Z
}.

(** [plan_distribution[plan] += 1]; [None] stands for the [KeyError]. *)
Definition count_plan (d : PlanDistribution) (p : string) : option PlanDistribution :=
  if decide (p = "free") then Some (mkDistribution (free_users d + 1) (pro_users d) (business_users d))
  else if decide (p = "pro") then Some (mkDistribution (free_users d) (pro_users d + 1) (business_users d))
  else if decide (p = "business") then Some (mkDistribution (free_users d) (pro_users d) (business_users d + 1))
  else None.

(** The loop over [users_db.values()]. *)
Fixpoint count_plans (d : PlanDistribution) (db : users_db) : option PlanDistribution :=
  match db with
  | [] => Some d
  | (_, user) :: rest =>
      match count_plan d (plan user) with
      | Some d' => count_plans d' rest
      | None => None
      end
  end.

(** The ['stats'] of [admin_dashboard]; the ['system'] block is left out. *)
Inductive DashboardResponse :=
| DashboardOk (total_users : nat) (plan_distribution : PlanDistribution)
              (active_sessions : nat)
| DashboardFailed500.

Definition admin_dashboard (db : users_db) (ss : Sessions.sessions) : DashboardResponse :=
  match count_plans (mkDistribution 0 0 0) db with
  | Some d => DashboardOk (length db) d (length ss)
  | None => DashboardFailed500
  end.

End Endpoints.

(** ** app/llm_manager.py: request history and size estimates *)

Module LLMThrottle.

(** [self.request_history]: one list of clock readings per model. *)
Record History := mkHistory {
  gemini_history : list Q;
  claude_history : list Q
}.


(** [self.request_history[llm]]; [None] stands for the [KeyError]. *)
Definition history_of (llm : string) (h : History) : option (list Q) :=
  if decide (llm = "gemini") then Some (gemini_history h)
  else if decide (llm = "claude") then Some (claude_history h)
  else None.

(** [self.request_history[llm] = l] for a model that has a list. *)
Definition set_history (llm : string) (l : list Q) (h : History) : History :=
  if decide (llm = "gemini") then mkHistory l (claude_history h)
  else mkHistory (gemini_history h) l.

(** [self.rate_limits[llm]['requests_per_minute']] *)
Definition max_requests (llm : string) : option Z :=
  if decide (llm = "gemini") then Some 15%Z
  else if decide (llm = "claude") then Some 50%Z
  else None.

(** The readings later than [since]. *)
Definition later_than (since : Q) (l : list Q) : list Q :=
  List.filter (fun timestamp => Qltb since timestamp) l.

(** [_check_rate_limit]: prunes the model's list to the last minute and
    compares its length with the model's limit. *)
Definition _check_rate_limit (current_time : Q) (llm : string) (h : History)
    : option (History * bool) :=
  match history_of llm h, max_requests llm with
  | Some l, Some limit =>
      let recent := later_than (current_time - 60) l in
      Some (set_history llm recent h, bool_decide (Z.of_nat (length recent) < limit)%Z)
  | _, _ => None
  end.





(** The dictionary of [get_usage_stats]. *)
Record UsageStats := mkStats {
  stats_llm : string;
  stats_requests_per_minute : nat;
  stats_requests_per_hour : nat;
  stats_rate_limit : Z;
  stats_remaining : Z
}.

Definition get_usage_stats (current_time : Q) (llm : string) (h : History)
    : option UsageStats :=
  match history_of llm h, max_requests llm with
  | Some l, Some limit =>
      let recent_requests := later_than (current_time - 60) l in
      let hourly_requests := later_than (current_time - 3600) l in
      Some (mkStats llm (length recent_requests) (length hourly_requests) limit
                    (limit - Z.of_nat (length recent_requests))%Z)
  | _, _ => None
  end.


(** [estimate_tokens] on a text given by its code points: the characters
    above U+3000 count one each, the others one per four. *)
Definition estimate_tokens (text : list N) : Z :=
  let japanese_chars := length (List.filter (fun c => N.ltb 12288 c) text) in
  let english_chars := (Z.of_nat (length text) - Z.of_nat japanese_chars)%Z in
  (Z.of_nat japanese_chars + english_chars / 4)%Z.

(** [context_limits.get(llm, 32000)] *)
Definition context_limit (llm : string) : Z :=
  if decide (llm = "gemini") then 32000%Z
  else if decide (llm = "claude") then 200000%Z
  else 32000%Z.

Definition check_context_window (llm : string) (text : list N) : bool :=
  bool_decide (estimate_tokens text < context_limit llm)%Z.

End LLMThrottle.

(** ** app/fast_chatbot.py: runs of reads *)

Module CacheReads.
Import FastChatbot.

(** A run of reads: the key and the three clock readings of each. *)
Fixpoint get_many (ttl : Q) (reads : list (string * Q * Q * Q)) (c : cache) : cache :=
  match reads with
  | [] => c
  | (key, start_time, now, hit_time) :: more =>
      get_many ttl more (get_cached ttl start_time now hit_time key c).1
  end.

End CacheReads.

(** ** app/security_middleware.py: validators, whitelist, sliding window *)

Module Validators.

(** The double quote. *)
Definition dquote : ascii := "034"%char.

(** [html_escape_table.get(c, c)] *)
Definition html_escape (c : ascii) : string :=
  if decide (c = "&"%char) then "&amp;"
  else if decide (c = dquote) then "&quot;"
  else if decide (c = "'"%char) then "&#x27;"
  else if decide (c = ">"%char) then "&gt;"
  else if decide (c = "<"%char) then "&lt;"
  else String c EmptyString.

(** [sanitize_html] *)
Fixpoint sanitize_html (text : string) : string :=
  match text with
  | EmptyString => EmptyString
  | String c r => html_escape c +:+ sanitize_html r
  end.

(** The characters the escape table replaces. *)
Definition special (c : ascii) : bool :=
  bool_decide (c = "&"%char) || bool_decide (c = dquote) || bool_decide (c = "'"%char)
  || bool_decide (c = ">"%char) || bool_decide (c = "<"%char).

(** The characters that can open markup or close an attribute. *)
Definition markup (c : ascii) : bool :=
  bool_decide (c = dquote) || bool_decide (c = "'"%char)
  || bool_decide (c = ">"%char) || bool_decide (c = "<"%char).

Fixpoint all_chars (p : ascii → bool) (s : string) : bool :=
  match s with
  | EmptyString => true
  | String c r => p c && all_chars p r
  end.

(** The class [[a-zA-Z0-9_-]]. *)
Definition id_char (c : ascii) : bool :=
  let n := nat_of_ascii c in
  (Nat.leb 97 n && Nat.leb n 122) || (Nat.leb 65 n && Nat.leb n 90)
  || (Nat.leb 48 n && Nat.leb n 57) || Nat.eqb n 95 || Nat.eqb n 45.

Definition newline : ascii := "010"%char.

(** The string without its last character when that is a newline. *)
Fixpoint before_final_newline (s : string) : string :=
  match s with
  | EmptyString => EmptyString
  | String c EmptyString => if decide (c = newline) then EmptyString else s
  | String c r => String c (before_final_newline r)
  end.

(** [re.match(r'^[a-zA-Z0-9_-]+$', s)]: one or more characters of the class
    up to the end of the string, where [$] also matches just before a
    newline that ends the string. *)
Definition matches_id (s : string) : bool :=
  let body := before_final_newline s in
  negb (bool_decide (body = "")) && all_chars id_char body.

Inductive IdError :=
| IdRequired
| IdBadCharacters
| IdTooLong.

(** [validate_user_id]; the three [ValueError]s are the three errors. *)
Definition validate_user_id (user_id : string) : IdError + string :=
  if decide (user_id = "") then inl IdRequired
  else if negb (matches_id user_id) then inl IdBadCharacters
  else if decide (100 < String.length user_id)%nat then inl IdTooLong
  else inr user_id.

(** [IPWhitelist.__init__]: [set(whitelist) if whitelist else None]. *)
Definition make_whitelist (whitelist : option (list string)) : option (gset string) :=
  match whitelist with
  | None => None
  | Some [] => None
  | Some l => Some (list_to_set l)
  end.

(** [check_ip]: [true] for the returned [True], [false] for the 403.
    [client_host] is [request.client.host] when the request has a client. *)
Definition check_ip (whitelist : option (gset string)) (client_host : option string)
    : bool :=
  match whitelist with
  | None => true
  | Some allowed => bool_decide (default "unknown" client_host ∈ allowed)
  end.

End Validators.

Module SlidingWindow.
Import RateLimiter.

(** The clock readings of a run, in the order they are taken. *)
Fixpoint readings (calls : list (string * Q * Q * Q)) : list Q :=
  match calls with
  | [] => []
  | (_, current_time, t_minute, t_hour) :: more =>
      current_time :: t_minute :: t_hour :: readings more
  end.

(** The readings never go back, from [prev] on. *)
Fixpoint nondecreasing (prev : Q) (l : list Q) : Prop :=
  match l with
  | [] => True
  | t :: more => (prev <= t)%Q ∧ nondecreasing t more
  end.

(** The request times of the calls of [client_id] that a run allows. *)
Fixpoint allowed_times (cfg : Config) (client_id : string)
    (calls : list (string * Q * Q * Q)) (st : State) : list Q :=
  match calls with
  | [] => []
  | (c, current_time, t_minute, t_hour) :: more =>
      let '(st1, o) := check_rate_limit cfg c current_time t_minute t_hour st in
      match o with
      | Allowed =>
          if decide (c = client_id)
          then current_time :: allowed_times cfg client_id more st1
          else allowed_times cfg client_id more st1
      | TooManyRequests _ => allowed_times cfg client_id more st1
      end
  end.

(** The request times within the minute before the reading [t]. *)
Definition within_minute (t : Q) (l : list Q) : list Q :=
  _clean_old_requests t l 60.

(** The bucket of the client and the allowed request times agree on what is
    recent, for every reading from [t0] on. *)
Definition tracks (client_id : string) (st : State) (acc : list Q) (t0 : Q) : Prop :=
  ∀ t, (t0 <= t)%Q →
    within_minute t (bucket (minute_buckets st) client_id) = within_minute t acc.

End SlidingWindow.

(** * Properties of the daily counter *)

Section AuthFacts.
Import AuthSystem.
Local Open Scope Z_scope.

Lemma set_usage_same u : set_usage u (usage u) = u.
Proof. by destruct u. Qed.

Lemma find_user_split uid db u :
  find_user uid db = Some u →
  ∃ pre e post, db = pre ++ (e, u) :: post ∧ unmatched uid pre ∧ user_id u = uid.
Proof.
  induction db as [|[e0 u0] db IH]; simpl; [done|].
  case_decide as Hid.
  - intros [= ->]. exists [], e0, db. split_and!; [done|constructor|done].
  - intros Hf. destruct (IH Hf) as (pre & e & post & -> & Hpre & Hu).
    exists ((e0, u0) :: pre), e, post. split_and!; [done| |done].
    by constructor.
Qed.

Lemma find_user_found uid pre e u post :
  unmatched uid pre → user_id u = uid →
  find_user uid (pre ++ (e, u) :: post) = Some u.
Proof.
  intros Hpre Hu. induction Hpre as [|[e0 u0] pre Hne _ IH]; simpl in *.
  - by rewrite decide_True.
  - by rewrite decide_False.
Qed.

Lemma check_rate_limit_found env today uid pre e u post :
  unmatched uid pre → user_id u = uid →
  let u' := set_usage u (reset_if_needed today (usage u)) in
  check_rate_limit env today uid (pre ++ (e, u) :: post)
  = (pre ++ (e, u') :: post, rate_decision env u').
Proof.
  intros Hpre Hu. induction Hpre as [|[e0 u0] pre Hne _ IH]; simpl in *.
  - by rewrite decide_True.
  - rewrite decide_False; [|done]. by rewrite IH.
Qed.

Lemma increment_usage_found uid pre e u post :
  unmatched uid pre → user_id u = uid →
  increment_usage uid (pre ++ (e, u) :: post) = (pre ++ (e, bump u) :: post, true).
Proof.
  intros Hpre Hu. induction Hpre as [|[e0 u0] pre Hne _ IH]; simpl in *.
  - by rewrite decide_True.
  - rewrite decide_False; [|done]. by rewrite IH.
Qed.

Lemma check_rate_limit_missing env today uid db :
  find_user uid db = None → check_rate_limit env today uid db = (db, UserNotFound).
Proof.
  induction db as [|[e0 u0] db IH]; simpl; [done|].
  case_decide; [done|]. intros Hf. by rewrite IH.
Qed.

Lemma increment_usage_missing uid db :
  find_user uid db = None → increment_usage uid db = (db, false).
Proof.
  induction db as [|[e0 u0] db IH]; simpl; [done|].
  case_decide; [done|]. intros Hf. by rewrite IH.
Qed.

End AuthFacts.

Section GateFacts.
Import AuthSystem.
Local Open Scope Z_scope.

(** The endpoint on a user whose record the search reaches: the three
    outcomes of the gate. *)
Lemma ask_question_allowed env today cu q pre e u post :
  q ≠ "" → unmatched (user_id cu) pre → user_id u = user_id cu →
  last_reset (usage u) = today →
  daily_count (usage u) < limits_get env (plan u) →
  ask_question env today cu q true (pre ++ (e, u) :: post)
  = (pre ++ (e, bump u) :: post,
     Ok200 (daily_count (usage u) + 1) (limits_get env (plan u))
           (limits_get env (plan u) - daily_count (usage u) - 1) (plan cu)).
Proof.
  intros Hq Hpre Hu Hday Hlt. unfold ask_question.
  rewrite decide_False; [|done].
  rewrite check_rate_limit_found; [|done..].
  unfold reset_if_needed. rewrite decide_False; [|naive_solver].
  rewrite set_usage_same. unfold rate_decision.
  rewrite decide_False; [|lia].
  by rewrite increment_usage_found.
Qed.

Lemma ask_question_denied env today cu q llm pre e u post :
  q ≠ "" → unmatched (user_id cu) pre → user_id u = user_id cu →
  last_reset (usage u) = today →
  daily_count (usage u) >= limits_get env (plan u) →
  ask_question env today cu q llm (pre ++ (e, u) :: post)
  = (pre ++ (e, u) :: post,
     TooManyRequests429 (limits_get env (plan u)) (daily_count (usage u)) (plan u)).
Proof.
  intros Hq Hpre Hu Hday Hge. unfold ask_question.
  rewrite decide_False; [|done].
  rewrite check_rate_limit_found; [|done..].
  unfold reset_if_needed. rewrite decide_False; [|naive_solver].
  rewrite set_usage_same. unfold rate_decision.
  by rewrite decide_True.
Qed.

Lemma ask_question_reset env today cu q pre e u post :
  q ≠ "" → unmatched (user_id cu) pre → user_id u = user_id cu →
  last_reset (usage u) ≠ today →
  0 < limits_get env (plan u) →
  ask_question env today cu q true (pre ++ (e, u) :: post)
  = (pre ++ (e, set_usage u (mkUsage 1 today)) :: post,
     Ok200 1 (limits_get env (plan u)) (limits_get env (plan u) - 1) (plan cu)).
Proof.
  intros Hq Hpre Hu Hday Hpos. unfold ask_question.
  rewrite decide_False; [|done].
  rewrite check_rate_limit_found; [|done..].
  unfold reset_if_needed. rewrite decide_True; [|done].
  unfold rate_decision; simpl.
  rewrite decide_False; [|lia].
  rewrite increment_usage_found; [|done..].
  do 2 f_equal. f_equal. lia.
Qed.

Lemma set_usage_twice u g1 g2 : set_usage (set_usage u g1) g2 = set_usage u g2.
Proof. done. Qed.

Lemma ask_many_app env cu q l1 l2 db :
  ask_many env cu q (l1 ++ l2) db
  = let '(db1, r1) := ask_many env cu q l1 db in
    let '(db2, r2) := ask_many env cu q l2 db1 in
    (db2, r1 ++ r2).
Proof.
  revert db. induction l1 as [|[today llm] l1 IH]; intros db; simpl.
  - by destruct (ask_many env cu q l2 db).
  - destruct (ask_question env today cu q llm db) as [db1 r].
    rewrite IH. destruct (ask_many env cu q l1 db1) as [db2 rs].
    by destruct (ask_many env cu q l2 db2).
Qed.

(** [k] calls within the quota: every one is allowed, the remaining
    allowance counts down and the stored count goes up by [k]. *)
Lemma ask_many_countdown env today cu q k : ∀ pre e u post,
  q ≠ "" → unmatched (user_id cu) pre → user_id u = user_id cu →
  last_reset (usage u) = today →
  daily_count (usage u) + Z.of_nat k <= limits_get env (plan u) →
  ask_many env cu q (replicate k (today, true)) (pre ++ (e, u) :: post)
  = (pre ++ (e, set_usage u (mkUsage (daily_count (usage u) + Z.of_nat k) today)) :: post,
     countdown (limits_get env (plan u)) (daily_count (usage u)) (plan cu) k).
Proof.
  induction k as [|k IH]; intros pre e u post Hq Hpre Hu Hday Hle.
  - simpl. do 3 f_equal. destruct u as [? ? ? ? ? ? [c d] ? ? ?]; simpl in *.
    subst. unfold set_usage; simpl. by rewrite Z.add_0_r.
  - cbn [replicate ask_many countdown].
    rewrite ask_question_allowed; [|done..|lia].
    rewrite (IH pre e (bump u) post); [|done..|simpl; lia].
    simpl. unfold bump. rewrite set_usage_twice.
    by replace (daily_count (usage u) + 1 + Z.of_nat k)
      with (daily_count (usage u) + Z.of_nat (S k)) by lia.
Qed.

End GateFacts.

Section GateTheorems.
Import AuthSystem.
Local Open Scope Z_scope.

(** C1.  For a user whose counter belongs to the current window (the stored
  [last_reset] is today's date), the gate of [ask_question], that is
  [check_rate_limit] followed by [increment_usage], answers as follows.
  When the stored count is below the plan's quota, [check_rate_limit]
  reports [remaining = quota - count], the count is incremented, and the
  endpoint answers 200 with [remaining = quota - (count + 1)], the quota
  minus the count as now stored.  When the count has reached the quota,
  the answer is 429 with the quota and the used count, and nothing is
  stored.  With quota 10 and a fresh counter, eleven calls give ten
  allowed answers whose remaining values are 9, 8, ..., 0, and then a
  denial with quota 10 and used 10. *)
Theorem quota_gate_decision env today cu q db u :
q ≠ "" →
find_user (user_id cu) db = Some u →
last_reset (usage u) = today →
let quota := limits_get env (plan u) in
let count := daily_count (usage u) in
(count < quota →
   (check_rate_limit env today (user_id cu) db).2
     = RateOk quota count (quota - count) (plan u) ∧
   ∃ db' u',
     ask_question env today cu q true db
       = (db', Ok200 (count + 1) quota (quota - (count + 1)) (plan cu)) ∧
     find_user (user_id cu) db' = Some u' ∧
     daily_count (usage u') = count + 1 ∧
     quota - (count + 1) = limits_get env (plan u') - daily_count (usage u') ∧
     last_reset (usage u') = today) ∧
(count >= quota →
   ∀ llm, ask_question env today cu q llm db
          = (db, TooManyRequests429 quota count (plan u))) ∧
(quota = 10 → count = 0 →
   (ask_many env cu q (replicate 11 (today, true)) db).2
   = [Ok200 1 10 9 (plan cu); Ok200 2 10 8 (plan cu); Ok200 3 10 7 (plan cu);
      Ok200 4 10 6 (plan cu); Ok200 5 10 5 (plan cu); Ok200 6 10 4 (plan cu);
      Ok200 7 10 3 (plan cu); Ok200 8 10 2 (plan cu); Ok200 9 10 1 (plan cu);
      Ok200 10 10 0 (plan cu); TooManyRequests429 10 10 (plan u)]).
Proof.
intros Hq Hfind Hday quota count. subst quota count.
destruct (find_user_split _ _ _ Hfind) as (pre & e & post & -> & Hpre & Hu).
split_and!.
- intros Hlt. split.
  + rewrite check_rate_limit_found; [|done..]. simpl.
    unfold reset_if_needed. rewrite decide_False; [|naive_solver].
    rewrite set_usage_same. unfold rate_decision.
    by rewrite decide_False; [|lia].
  + exists (pre ++ (e, bump u) :: post), (bump u). split_and!.
    * rewrite ask_question_allowed; [|done..]. do 2 f_equal. lia.
    * by apply find_user_found.
    * done.
    * done.
    * done.
- intros Hge llm. by apply ask_question_denied.
- intros Hquota Hcount.
  change (replicate 11 (today, true)) with (replicate 10 (today, true) ++ [(today, true)]).
  rewrite ask_many_app.
  rewrite (ask_many_countdown env today cu q 10 pre e u post); [|done..|lia].
  rewrite Hquota, Hcount. cbn [ask_many].
  rewrite ask_question_denied; [|done..|simpl; lia].
  simpl. by rewrite Hquota.
Qed.

Lemma quota_gate_decision_witness :
(ask_many default_limits (sample_user "u1" "free" 0 "") "q"
          (replicate 11 ("2024-03-05", true)) (sample_db "free" 0 "2024-03-05")).2
= [Ok200 1 10 9 "free"; Ok200 2 10 8 "free"; Ok200 3 10 7 "free";
   Ok200 4 10 6 "free"; Ok200 5 10 5 "free"; Ok200 6 10 4 "free";
   Ok200 7 10 3 "free"; Ok200 8 10 2 "free"; Ok200 9 10 1 "free";
   Ok200 10 10 0 "free"; TooManyRequests429 10 10 "free"].
Proof.
refine (proj2 (proj2 (quota_gate_decision default_limits "2024-03-05"
                        (sample_user "u1" "free" 0 "") "q"
                        (sample_db "free" 0 "2024-03-05")
                        (sample_user "u1" "free" 0 "2024-03-05") _ _ _)) _ _);
  first [reflexivity | discriminate].
Defined.

(** C2.  When the stored [last_reset] is not today's date and the plan's
  quota is positive, [check_rate_limit] sets the stored count to 0 and
  the window start to today, and the gate then answers 200 with
  [remaining = quota - 1], leaving the count of the new window at 1. *)
Theorem expired_window_resets env today cu q db u :
q ≠ "" →
find_user (user_id cu) db = Some u →
last_reset (usage u) ≠ today →
0 < limits_get env (plan u) →
let quota := limits_get env (plan u) in
find_user (user_id cu) (check_rate_limit env today (user_id cu) db).1
  = Some (set_usage u (mkUsage 0 today)) ∧
(check_rate_limit env today (user_id cu) db).2 = RateOk quota 0 quota (plan u) ∧
∃ db',
  ask_question env today cu q true db = (db', Ok200 1 quota (quota - 1) (plan cu)) ∧
  find_user (user_id cu) db' = Some (set_usage u (mkUsage 1 today)).
Proof.
intros Hq Hfind Hday Hpos quota. subst quota.
destruct (find_user_split _ _ _ Hfind) as (pre & e & post & -> & Hpre & Hu).
rewrite check_rate_limit_found; [|done..]. simpl.
unfold reset_if_needed. rewrite decide_True; [|done].
split_and!.
- by apply find_user_found.
- unfold rate_decision; simpl. rewrite decide_False; [|lia].
  f_equal. lia.
- exists (pre ++ (e, set_usage u (mkUsage 1 today)) :: post). split.
  + by apply ask_question_reset.
  + by apply find_user_found.
Qed.

Lemma expired_window_resets_witness :
find_user "u1" (check_rate_limit default_limits "2024-03-06" "u1"
                  (sample_db "free" 10 "2024-03-05")).1
= Some (sample_user "u1" "free" 0 "2024-03-06") ∧
(check_rate_limit default_limits "2024-03-06" "u1"
   (sample_db "free" 10 "2024-03-05")).2 = RateOk 10 0 10 "free" ∧
∃ db',
  ask_question default_limits "2024-03-06" (sample_user "u1" "free" 0 "") "q" true
               (sample_db "free" 10 "2024-03-05")
  = (db', Ok200 1 10 9 "free") ∧
  find_user "u1" db' = Some (sample_user "u1" "free" 1 "2024-03-06").
Proof.
refine (expired_window_resets default_limits "2024-03-06"
          (sample_user "u1" "free" 0 "") "q" (sample_db "free" 10 "2024-03-05")
          (sample_user "u1" "free" 10 "2024-03-05") _ _ _ _);
  first [reflexivity | discriminate].
Defined.

End GateTheorems.


Section CounterTheorems.
Import AuthSystem.
Local Open Scope Z_scope.

Lemma bump_set_usage u g :
  bump (set_usage u g) = set_usage u (mkUsage (daily_count g + 1) (last_reset g)).
Proof. done. Qed.

Lemma increment_n_found uid n pre e u post :
  unmatched uid pre → user_id u = uid →
  increment_n uid n (pre ++ (e, u) :: post)
  = pre ++ (e, set_usage u (mkUsage (daily_count (usage u) + Z.of_nat n)
                                    (last_reset (usage u)))) :: post.
Proof.
  intros Hpre Hu. induction n as [|n IH].
  - simpl. rewrite Z.add_0_r. do 2 f_equal. by destruct u as [? ? ? ? ? ? [??] ? ? ?].
  - unfold increment_n in *. rewrite Nat.iter_succ, IH.
    rewrite increment_usage_found; [|done..]. cbn [fst].
    rewrite bump_set_usage. cbn [daily_count last_reset].
    by replace (daily_count (usage u) + Z.of_nat n + 1)
      with (daily_count (usage u) + Z.of_nat (S n)) by lia.
Qed.

(** C9.  [increment_usage] adds exactly 1 to the [daily_count] of the record
    its search stops at and returns [True]; every other field of that
    record and every other record of the store stay as they were.  For a
    user id carried by no record it returns [False] and the store is
    unchanged.  It compares nothing against the quota: enough calls in a
    row leave a stored count above the plan's limit. *)
Theorem increment_usage_frame uid db :
  (∀ u, find_user uid db = Some u →
     ∃ pre e post,
       db = pre ++ (e, u) :: post ∧ unmatched uid pre ∧
       increment_usage uid db = (pre ++ (e, bump u) :: post, true) ∧
       daily_count (usage (bump u)) = daily_count (usage u) + 1 ∧
       last_reset (usage (bump u)) = last_reset (usage u) ∧
       user_id (bump u) = user_id u ∧ email (bump u) = email u ∧
       password (bump u) = password u ∧ name (bump u) = name u ∧
       plan (bump u) = plan u ∧ created_at (bump u) = created_at u ∧
       stripe_customer_id (bump u) = stripe_customer_id u ∧
       stripe_subscription_id (bump u) = stripe_subscription_id u ∧
       updated_at (bump u) = updated_at u) ∧
  (find_user uid db = None → increment_usage uid db = (db, false)) ∧
  (∀ env u, find_user uid db = Some u →
     ∃ n u', find_user uid (increment_n uid n db) = Some u' ∧
             plan u' = plan u ∧
             limits_get env (plan u') < daily_count (usage u')).
Proof.
  split_and!.
  - intros u Hfind.
    destruct (find_user_split _ _ _ Hfind) as (pre & e & post & -> & Hpre & Hu).
    exists pre, e, post. split_and!; try done.
    by apply increment_usage_found.
  - apply increment_usage_missing.
  - intros env u Hfind.
    destruct (find_user_split _ _ _ Hfind) as (pre & e & post & -> & Hpre & Hu).
    exists (Z.to_nat (Z.max 0 (limits_get env (plan u) - daily_count (usage u) + 1))).
    eexists. rewrite increment_n_found; [|done..].
    split_and!; [by apply find_user_found|done|]. simpl. lia.
Qed.

Lemma increment_usage_frame_witness :
  find_user "u1" (sample_db "free" 10 "2024-03-05")
  = Some (sample_user "u1" "free" 10 "2024-03-05") ∧
  (increment_usage "u1" (sample_db "free" 10 "2024-03-05")).2 = true ∧
  increment_usage "nobody" (sample_db "free" 10 "2024-03-05")
  = (sample_db "free" 10 "2024-03-05", false).
Proof.
  destruct (increment_usage_frame "u1" (sample_db "free" 10 "2024-03-05")) as (H1 & _ & _).
  destruct (increment_usage_frame "nobody" (sample_db "free" 10 "2024-03-05")) as (_ & H2 & _).
  split_and!.
  - reflexivity.
  - destruct (H1 (sample_user "u1" "free" 10 "2024-03-05") eq_refl)
      as (pre & e & post & Hdb & Hpre & Hinc & _).
    rewrite Hinc. reflexivity.
  - apply H2. reflexivity.
Defined.

(** C7 (as the code has it).  An identity that no record of [users_db]
    carries gets no counter from the gate: [check_rate_limit] answers
    'User not found', [increment_usage] answers [False], the endpoint
    answers 500, and the store is left as it was.  The counter is created
    by [register_user] alone, with count 0 and today's date as window
    start, under the next free user id. *)
Theorem unknown_identity_not_created env today uid db :
  find_user uid db = None →
  check_rate_limit env today uid db = (db, UserNotFound) ∧
  increment_usage uid db = (db, false) ∧
  (∀ cu q llm, user_id cu = uid → q ≠ "" →
     ask_question env today cu q llm db = (db, Failed500)) ∧
  (∀ mail hashed nm now_iso token, has_email mail db = false →
     ∃ u, register_user mail hashed nm now_iso today token db
          = (db ++ [(mail, u)], Registered (user_id u) mail (name u) "free" token) ∧
          usage u = mkUsage 0 today ∧ plan u = "free" ∧
          user_id u = "user_" +:+ pretty (S (length db))).
Proof.
  intros Hnone. split_and!.
  - by apply check_rate_limit_missing.
  - by apply increment_usage_missing.
  - intros cu q llm <- Hq. unfold ask_question.
    rewrite decide_False; [|done]. by rewrite check_rate_limit_missing.
  - intros mail hashed nm now_iso token Hmail. unfold register_user. rewrite Hmail.
    rewrite Nat.add_1_r.
    by exists (mkUser ("user_" +:+ pretty (S (length db))) mail hashed
                 (or_else nm (split_head "@"%char mail)) "free" now_iso
                 (mkUsage 0 today) None None None).
Qed.

Lemma unknown_identity_not_created_witness :
  check_rate_limit default_limits "2024-03-05" "u7" (sample_db "free" 0 "2024-03-05")
  = (sample_db "free" 0 "2024-03-05", UserNotFound).
Proof.
  apply (unknown_identity_not_created default_limits "2024-03-05" "u7"
           (sample_db "free" 0 "2024-03-05")).
  reflexivity.
Defined.

(** C7, the claim as stated fails: the first call of the gate for an
    identity without a counter is not allowed and creates no counter. *)
Lemma first_call_without_counter_fails :
  let db := sample_db "free" 0 "2024-03-05" in
  let r := check_rate_limit default_limits "2024-03-05" "u7" db in
  (∀ limit used remaining pl, r.2 ≠ RateOk limit used remaining pl) ∧
  find_user "u7" r.1 = None ∧
  (ask_question default_limits "2024-03-05" (sample_user "u7" "free" 0 "") "q" true db).2
  = Failed500.
Proof. split_and!; [intros; vm_compute; discriminate|reflexivity|reflexivity]. Qed.

(** C3 (as the code has it).  A plan name outside 'free', 'pro' and
    'business' raises nothing: [limits.get] falls back to 10 and the rate
    check goes on as for any plan, and [get_llm_for_user] answers 'gemini'
    for every plan other than 'business'. *)
Theorem unknown_plan_defaults env p :
  p ≠ "free" → p ≠ "pro" → p ≠ "business" →
  limits_get env p = 10 ∧
  LLMManager.get_llm_for_user p = "gemini" ∧
  (∀ today uid db u,
     find_user uid db = Some u → plan u = p → last_reset (usage u) = today →
     (check_rate_limit env today uid db).2
     = if decide (daily_count (usage u) >= 10)
       then DailyLimitReached 10 (daily_count (usage u)) p
       else RateOk 10 (daily_count (usage u)) (10 - daily_count (usage u)) p).
Proof.
  intros Hf Hp Hb.
  assert (limits_get env p = 10) as Hlim.
  { unfold limits_get. by rewrite !decide_False. }
  split_and!; [done| |].
  - unfold LLMManager.get_llm_for_user. by rewrite decide_False.
  - intros today uid db u Hfind Hplan Hday.
    destruct (find_user_split _ _ _ Hfind) as (pre & e & post & -> & Hpre & Hu).
    rewrite check_rate_limit_found; [|done..]. simpl.
    unfold reset_if_needed. rewrite decide_False; [|naive_solver].
    rewrite set_usage_same. unfold rate_decision. by rewrite Hplan, Hlim.
Qed.

Lemma unknown_plan_defaults_witness :
  limits_get default_limits "enterprise" = 10 ∧
  LLMManager.get_llm_for_user "enterprise" = "gemini".
Proof.
  destruct (unknown_plan_defaults default_limits "enterprise") as (H1 & H2 & _);
    [discriminate..|].
  by split.
Defined.

(** C3, the claim as stated fails: with the plan 'enterprise' the rate check
    succeeds with the limit 10 and the routing answers 'gemini'; neither
    fails. *)
Lemma unknown_plan_is_served :
  let db := (update_user_plan "u1" "enterprise" "2024-03-05T10:00:00+00:00"
               (sample_db "free" 0 "2024-03-05")).1 in
  (plan <$> find_user "u1" db) = Some "enterprise" ∧
  (check_rate_limit default_limits "2024-03-05" "u1" db).2 = RateOk 10 0 10 "enterprise" ∧
  LLMManager.get_llm_for_user "enterprise" = "gemini".
Proof. by split_and!. Qed.

End CounterTheorems.


Section WindowTheorems.
Import AuthSystem.
Local Open Scope Z_scope.

Lemma reset_if_needed_date today g : last_reset (reset_if_needed today g) = today.
Proof.
  unfold reset_if_needed. case_decide as H; [done|].
  by destruct (decide (last_reset g = today)).
Qed.

(** After any call of the endpoint the stored window start of the caller
    is the date of that call. *)
Lemma ask_question_window env today cu q llm pre e u post :
  q ≠ "" → unmatched (user_id cu) pre → user_id u = user_id cu →
  ∃ u1, (ask_question env today cu q llm (pre ++ (e, u) :: post)).1
        = pre ++ (e, u1) :: post ∧
        user_id u1 = user_id cu ∧ last_reset (usage u1) = today.
Proof.
  intros Hq Hpre Hu. unfold ask_question.
  rewrite decide_False; [|done].
  rewrite check_rate_limit_found; [|done..].
  set (u' := set_usage u (reset_if_needed today (usage u))).
  assert (last_reset (usage u') = today) as Hday by apply reset_if_needed_date.
  assert (user_id u' = user_id cu) as Hu' by done.
  destruct (rate_decision env u') as [limit used remaining pl|limit used pl|];
    [destruct llm|..]; try by (exists u').
  rewrite increment_usage_found; [|done..]. by exists (bump u').
Qed.

Lemma count_resets_found env cu q calls : ∀ pre e u post,
  q ≠ "" → unmatched (user_id cu) pre → user_id u = user_id cu →
  count_resets env cu q calls (pre ++ (e, u) :: post)
  = date_changes (last_reset (usage u)) calls.*1.
Proof.
  induction calls as [|[today llm] calls IH]; intros pre e u post Hq Hpre Hu; [done|].
  cbn [count_resets date_changes fmap list_fmap fst].
  destruct (ask_question_window env today cu q llm pre e u post Hq Hpre Hu)
    as (u1 & -> & Hu1 & Hday).
  rewrite (IH pre e u1 post); [|done..]. rewrite Hday.
  unfold window_start. rewrite !find_user_found; [|done..]. simpl. rewrite Hday.
  f_equal. destruct (decide (last_reset (usage u) = today)) as [->|Hne].
  - by rewrite decide_True.
  - rewrite decide_False; [done|]. by intros [= ?].
Qed.

Lemma reset_at_each_last days today g :
  last days = Some today → reset_at_each days g = mkUsage 0 today.
Proof.
  destruct days as [|d days] using rev_ind; [done|].
  rewrite last_snoc. intros [= ->]. unfold reset_at_each. by rewrite foldl_app.
Qed.

(** C6.  The stored count is set to 0 by the reset branch of
    [check_rate_limit], and that branch runs once for each crossing from the
    stored window into the window of the call.  A call whose date differs
    from the stored window start, by however many days, resets the count
    and moves the window start to the date of the call; a call on the
    stored date resets nothing.  After any call of the gate the window
    start is the date of that call, so a further check on that date leaves
    the store as it is: no crossing resets twice.  Over any run of calls
    the number of resets is the number of calls whose date differs from the
    date of the call before.  When several boundaries have gone by since
    the stored window start, the one reset leaves the counter as a reset at
    each of these boundaries would. *)
Theorem daily_reset_once env cu q db u :
  q ≠ "" →
  find_user (user_id cu) db = Some u →
  (∀ today,
     find_user (user_id cu) (check_rate_limit env today (user_id cu) db).1
     = Some (if decide (last_reset (usage u) = today) then u
             else set_usage u (mkUsage 0 today))) ∧
  (∀ today llm,
     let db1 := (ask_question env today cu q llm db).1 in
     window_start (user_id cu) db1 = Some today ∧
     (check_rate_limit env today (user_id cu) db1).1 = db1) ∧
  (∀ calls,
     count_resets env cu q calls db = date_changes (last_reset (usage u)) calls.*1) ∧
  (∀ today days,
     last days = Some today → last_reset (usage u) ≠ today →
     usage <$> find_user (user_id cu) (check_rate_limit env today (user_id cu) db).1
     = Some (reset_at_each days (usage u))).
Proof.
  intros Hq Hfind.
  destruct (find_user_split _ _ _ Hfind) as (pre & e & post & -> & Hpre & Hu).
  split_and!.
  - intros today. rewrite check_rate_limit_found; [|done..]. simpl.
    rewrite find_user_found; [|done..]. f_equal.
    unfold reset_if_needed. destruct (decide (last_reset (usage u) = today)).
    + rewrite decide_False; [|naive_solver]. apply set_usage_same.
    + by rewrite decide_True.
  - intros today llm.
    destruct (ask_question_window env today cu q llm pre e u post Hq Hpre Hu)
      as (u1 & Hdb1 & Hu1 & Hday).
    simpl. rewrite Hdb1. split.
    + unfold window_start. rewrite find_user_found; [|done..]. simpl. by rewrite Hday.
    + rewrite check_rate_limit_found; [|done..]. simpl.
      unfold reset_if_needed. rewrite decide_False; [|naive_solver].
      by rewrite set_usage_same.
  - intros calls. by apply count_resets_found.
  - intros today days Hlast Hne. rewrite check_rate_limit_found; [|done..]. simpl.
    rewrite find_user_found; [|done..]. simpl.
    unfold reset_if_needed. rewrite decide_True; [|done].
    by rewrite (reset_at_each_last days today).
Qed.

Lemma daily_reset_once_witness :
  count_resets default_limits (sample_user "u1" "free" 0 "") "q"
    [("2024-03-05", true); ("2024-03-05", true); ("2024-03-08", true);
     ("2024-03-08", false); ("2024-03-09", true)]
    (sample_db "free" 4 "2024-03-05")
  = 2%nat.
Proof.
  refine (proj1 (proj2 (proj2 (daily_reset_once default_limits
                                 (sample_user "u1" "free" 0 "") "q"
                                 (sample_db "free" 4 "2024-03-05")
                                 (sample_user "u1" "free" 4 "2024-03-05") _ _))) _);
    first [reflexivity | discriminate].
Defined.

End WindowTheorems.


Section CacheFacts.
Import FastChatbot.

Lemma Qltb_true a b : Qltb a b = true ↔ (a < b)%Q.
Proof.
  unfold Qltb. destruct (Qlt_le_dec a b) as [H|H]; split; try done.
  intros H'. by apply Qle_not_lt in H.
Qed.

Lemma Qltb_false a b : Qltb a b = false ↔ (b <= a)%Q.
Proof.
  unfold Qltb. destruct (Qlt_le_dec a b) as [H|H]; split; try done.
  intros H'. by apply Qle_not_lt in H'.
Qed.

Lemma cache_lookup_store_eq key v c : cache_lookup key (cache_store key v c) = Some v.
Proof.
  induction c as [|[k w] c IH]; simpl.
  - by rewrite decide_True.
  - case_decide; simpl; [by rewrite decide_True|by rewrite decide_False].
Qed.

Lemma cache_lookup_store_ne key key' v c :
  key ≠ key' → cache_lookup key' (cache_store key v c) = cache_lookup key' c.
Proof.
  intros Hne. induction c as [|[k w] c IH]; simpl.
  - by rewrite decide_False.
  - case_decide; simpl; [subst; by rewrite !decide_False|].
    case_decide; [done|apply IH].
Qed.

Lemma cache_store_fresh key v c :
  cache_lookup key c = None → cache_store key v c = c ++ [(key, v)].
Proof.
  induction c as [|[k w] c IH]; simpl; [done|].
  case_decide; [done|]. intros H'. by rewrite IH.
Qed.

Lemma cache_store_length key v c :
  length (cache_store key v c)
  = match cache_lookup key c with Some _ => length c | None => S (length c) end.
Proof.
  induction c as [|[k w] c IH]; simpl; [done|].
  case_decide; simpl; [done|]. rewrite IH. by destruct (cache_lookup key c).
Qed.

Lemma cache_lookup_delete_ne key key' c :
  key ≠ key' → cache_lookup key' (cache_delete key c) = cache_lookup key' c.
Proof.
  intros Hne. induction c as [|[k w] c IH]; simpl; [done|].
  case_decide; simpl.
  - subst. by rewrite decide_False.
  - case_decide; [done|apply IH].
Qed.

Lemma cache_delete_length key c :
  is_Some (cache_lookup key c) → S (length (cache_delete key c)) = length c.
Proof.
  induction c as [|[k w] c IH]; simpl; [by intros [? ?]|].
  case_decide; simpl; [done|]. intros H'. by rewrite IH.
Qed.

Lemma cache_delete_app key c l :
  is_Some (cache_lookup key c) → cache_delete key (c ++ l) = cache_delete key c ++ l.
Proof.
  induction c as [|[k w] c IH]; simpl; [by intros [? ?]|].
  case_decide; simpl; [done|]. intros H'. by rewrite IH.
Qed.

Lemma cache_lookup_elem kv c : kv ∈ c → is_Some (cache_lookup kv.1 c).
Proof.
  induction c as [|[k w] c IH]; [by intros ?%not_elem_of_nil|].
  intros [->|Hin]%elem_of_cons; simpl.
  - by rewrite decide_True.
  - case_decide; [done|by apply IH].
Qed.

Lemma min_from_elem best rest : min_from best rest ∈ best :: rest.
Proof.
  revert best. induction rest as [|x rest IH]; intros best; simpl.
  { apply elem_of_cons. by left. }
  destruct (Qltb _ _).
  - apply elem_of_cons. right. apply IH.
  - specialize (IH best). apply elem_of_cons in IH as [->|Hin].
    + apply elem_of_cons. by left.
    + apply elem_of_cons. right. apply elem_of_cons. by right.
Qed.

(** The element [min] picks is no younger than any other. *)
Lemma min_from_least best rest :
  Forall (fun kv => (cached_timestamp (min_from best rest).2 <= cached_timestamp kv.2)%Q)
         (best :: rest).
Proof.
  revert best. induction rest as [|x rest IH]; intros best; simpl.
  - repeat constructor. apply Qle_refl.
  - destruct (Qltb _ _) eqn:Hlt.
    + apply Qltb_true in Hlt. specialize (IH x).
      apply Forall_cons in IH as [Hx Hrest]. repeat constructor; [|done..].
      eapply Qle_trans; [exact Hx|by apply Qlt_le_weak].
    + apply Qltb_false in Hlt. specialize (IH best).
      apply Forall_cons in IH as [Hb Hrest]. repeat constructor; [done| |done].
      eapply Qle_trans; [exact Hb|done].
Qed.

Lemma min_from_app best l1 l2 :
  min_from best (l1 ++ l2) = min_from (min_from best l1) l2.
Proof.
  revert best. induction l1 as [|x l1 IH]; intros best; simpl; [done|].
  by destruct (Qltb _ _).
Qed.

(** Under a clock that has not gone back, a new last entry is never the one
    [min] picks. *)
Lemma min_from_snoc now best rest key v :
  not_after now (best :: rest) → cached_timestamp v = now →
  min_from best (rest ++ [(key, v)]) = min_from best rest.
Proof.
  intros Hclock Hv. rewrite min_from_app. simpl.
  assert (Qltb (cached_timestamp v) (cached_timestamp (min_from best rest).2) = false)
    as ->; [|done].
  apply Qltb_false. rewrite Hv.
  pose proof (min_from_elem best rest) as Hin.
  unfold not_after in Hclock. rewrite Forall_forall in Hclock. by apply Hclock.
Qed.

End CacheFacts.


Section CacheTheorems.
Import FastChatbot.
Local Open Scope nat_scope.

Lemma put_cached_limit_length limit key r now c :
  length c ≤ limit → length (put_cached_limit limit key r now c) ≤ limit.
Proof.
  intros Hlen. unfold put_cached_limit.
  set (c1 := cache_store key (cached_of r now) c).
  assert (length c1 ≤ S (length c)) as Hc1.
  { unfold c1. rewrite cache_store_length. destruct (cache_lookup key c); lia. }
  case_decide as Hfull; [|lia].
  destruct c1 as [|x rest]; [simpl in *; lia|]. cbn [oldest_key].
  pose proof (cache_delete_length (min_from x rest).1 (x :: rest)
                (cache_lookup_elem _ _ (min_from_elem x rest))) as Hdel.
  lia.
Qed.

Lemma put_many_length limit writes : ∀ c,
  length c ≤ limit → length (put_many limit writes c) ≤ limit.
Proof.
  induction writes as [|[[key r] now] writes IH]; intros c Hlen; simpl; [done|].
  by apply IH, put_cached_limit_length.
Qed.

(** Writing a new key into a full cache: the entry [min] picks among the old
    ones goes, the new one is appended. *)
Lemma put_cached_limit_full limit key r now c :
  0 < limit → length c = limit → cache_lookup key c = None → not_after now c →
  ∃ m, m ∈ c ∧ oldest_key c = Some m.1 ∧
       Forall (fun kv => (cached_timestamp m.2 <= cached_timestamp kv.2)%Q) c ∧
       put_cached_limit limit key r now c = cache_delete m.1 c ++ [(key, cached_of r now)].
Proof.
  intros Hpos Hlen Hfresh Hclock.
  destruct c as [|x rest]; [simpl in *; lia|].
  exists (min_from x rest). split_and!.
  - apply min_from_elem.
  - done.
  - apply min_from_least.
  - unfold put_cached_limit. rewrite cache_store_fresh; [|done].
    rewrite decide_True; [|rewrite length_app; simpl in *; lia].
    change ((x :: rest) ++ [(key, cached_of r now)])
      with (x :: (rest ++ [(key, cached_of r now)])) at 1.
    cbn [oldest_key]. rewrite (min_from_snoc now); [|done..].
    apply cache_delete_app, cache_lookup_elem, min_from_elem.
Qed.

(** The same write without any assumption on the clock: exactly one entry
    of the cache as it is after the insertion goes, one with the smallest
    timestamp. *)
Lemma put_cached_limit_evicts limit key r now c :
  length c = limit → cache_lookup key c = None →
  ∃ m, m ∈ c ++ [(key, cached_of r now)] ∧
       Forall (fun kv => (cached_timestamp m.2 <= cached_timestamp kv.2)%Q)
              (c ++ [(key, cached_of r now)]) ∧
       put_cached_limit limit key r now c
         = cache_delete m.1 (c ++ [(key, cached_of r now)]) ∧
       length (put_cached_limit limit key r now c) = limit.
Proof.
  intros Hlen Hfresh. unfold put_cached_limit.
  rewrite cache_store_fresh; [|done].
  rewrite decide_True; [|rewrite length_app; simpl; lia].
  assert (length (c ++ [(key, cached_of r now)]) = S limit) as Hlen1
    by (rewrite length_app; simpl; lia).
  destruct (c ++ [(key, cached_of r now)]) as [|x rest]; [done|].
  exists (min_from x rest). cbn [oldest_key].
  pose proof (cache_delete_length (min_from x rest).1 (x :: rest)
                (cache_lookup_elem _ _ (min_from_elem x rest))) as Hdel.
  split_and!; [apply min_from_elem|apply min_from_least|done|lia].
Qed.

Lemma put_evict_first_full limit key r now c m :
  length c = limit → cache_lookup key c = None →
  m ∈ c → oldest_key c = Some m.1 →
  put_evict_first limit key r now c = cache_delete m.1 c ++ [(key, cached_of r now)].
Proof.
  intros Hlen Hfresh Hin Hold. unfold put_evict_first.
  rewrite decide_True; [|lia]. rewrite Hold.
  apply cache_store_fresh. rewrite cache_lookup_delete_ne; [done|].
  intros Heq. apply cache_lookup_elem in Hin. rewrite Heq, Hfresh in Hin.
  by destruct Hin.
Qed.

(** The entry just written is found again, whatever was evicted. *)
Lemma put_cached_limit_lookup limit key r now c :
  0 < limit → length c ≤ limit → not_after now c →
  cache_lookup key (put_cached_limit limit key r now c) = Some (cached_of r now).
Proof.
  intros Hpos Hlen Hclock.
  destruct (cache_lookup key c) as [old|] eqn:Hkey.
  - unfold put_cached_limit. rewrite decide_False.
    + apply cache_lookup_store_eq.
    + rewrite cache_store_length, Hkey. lia.
  - destruct (decide (length c = limit)) as [Hfull|Hroom].
    + destruct (put_cached_limit_full limit key r now c Hpos Hfull Hkey Hclock)
        as (m & Hin & _ & _ & ->).
      assert (m.1 ≠ key) as Hne.
      { intros Heq. apply cache_lookup_elem in Hin. rewrite Heq, Hkey in Hin.
        by destruct Hin. }
      rewrite <- (cache_delete_app m.1 c); [|by apply cache_lookup_elem].
      rewrite cache_lookup_delete_ne; [|done].
      rewrite <- (cache_store_fresh key); [|done]. apply cache_lookup_store_eq.
    + unfold put_cached_limit. rewrite decide_False.
      * apply cache_lookup_store_eq.
      * rewrite cache_store_length, Hkey. lia.
Qed.

Lemma get_cached_hit ttl start_time now hit_time key c e :
  cache_lookup key c = Some e → (now - cached_timestamp e < ttl)%Q →
  get_cached ttl start_time now hit_time key c
  = (cache_store key (mark_hit e (hit_time - start_time)) c,
     Some (mark_hit e (hit_time - start_time))).
Proof.
  intros Hkey Hage. unfold get_cached, _is_cache_valid. rewrite Hkey.
  by apply Qltb_true in Hage as ->.
Qed.

Lemma get_cached_stale ttl start_time now hit_time key c e :
  cache_lookup key c = Some e → (ttl <= now - cached_timestamp e)%Q →
  get_cached ttl start_time now hit_time key c = (c, None).
Proof.
  intros Hkey Hage. unfold get_cached, _is_cache_valid. rewrite Hkey.
  by apply Qltb_false in Hage as ->.
Qed.

Lemma get_cached_absent ttl start_time now hit_time key c :
  cache_lookup key c = None →
  get_cached ttl start_time now hit_time key c = (c, None).
Proof. intros Hkey. unfold get_cached. by rewrite Hkey. Qed.

(** C5.  The read path returns a value exactly when the key is present and
    [now - timestamp < ttl]; the value is the dictionary stored under the
    key, with its ['response_time'] and ['from_cache'] refreshed in the
    store itself.  Otherwise nothing is returned.  No returned entry has an
    age of [ttl] or more. *)
Theorem get_cached_fresh_only ttl start_time now hit_time key c :
  (∀ v, (get_cached ttl start_time now hit_time key c).2 = Some v ↔
        ∃ e, cache_lookup key c = Some e ∧
             (now - cached_timestamp e < ttl)%Q ∧
             v = mark_hit e (hit_time - start_time)) ∧
  ((get_cached ttl start_time now hit_time key c).2 = None ↔
     ∀ e, cache_lookup key c = Some e → (ttl <= now - cached_timestamp e)%Q) ∧
  (∀ v, (get_cached ttl start_time now hit_time key c).2 = Some v →
        cache_lookup key (get_cached ttl start_time now hit_time key c).1 = Some v ∧
        (now - cached_timestamp v < ttl)%Q ∧
        ¬ (ttl <= now - cached_timestamp v)%Q).
Proof.
  destruct (cache_lookup key c) as [e|] eqn:Hkey.
  - destruct (Qlt_le_dec (now - cached_timestamp e) ttl) as [Hfresh|Hstale].
    + rewrite (get_cached_hit _ _ _ _ _ _ e); [|done..]. simpl. split_and!.
      * intros v. split; [intros [= <-]; by exists e|].
        by intros (e' & [= <-] & _ & ->).
      * split; [done|]. intros Hall. specialize (Hall e eq_refl).
        by apply Qle_not_lt in Hall.
      * intros v [= <-]. split_and!; [apply cache_lookup_store_eq|done|].
        simpl. by apply Qlt_not_le.
    + rewrite (get_cached_stale _ _ _ _ _ _ e); [|done..]. simpl. split_and!.
      * intros v. split; [done|]. intros (e' & [= <-] & Hfresh & _).
        by apply Qle_not_lt in Hstale.
      * split; [|done]. by intros _ e' [= <-].
      * done.
  - rewrite get_cached_absent; [|done]. simpl. split_and!.
    + intros v. split; [done|]. by intros (e' & [=] & _).
    + split; [|done]. by intros _ e' [=].
    + done.
Qed.

Lemma get_cached_fresh_only_witness :
  (get_cached cache_ttl 1100 1100 1101 "u1:42"
              (put_cached "u1:42" (sample_result "a") 1000 [])).2
  = Some (mark_hit (cached_of (sample_result "a") 1000) (1101 - 1100)).
Proof.
  destruct (get_cached_fresh_only cache_ttl 1100 1100 1101 "u1:42"
              (put_cached "u1:42" (sample_result "a") 1000 [])) as [Hhit _].
  apply Hhit.
  exists (cached_of (sample_result "a") 1000). split_and!; [reflexivity|reflexivity|reflexivity].
Defined.

End CacheTheorems.


Section EvictionTheorems.
Import FastChatbot.
Local Open Scope nat_scope.

(** The scenario of three writes into a cache bounded by two entries. *)
Lemma put_three_into_two fp1 fp2 fp3 r1 r2 r3 (t1 t2 t3 : Q) :
  fp1 ≠ fp2 → fp1 ≠ fp3 → fp2 ≠ fp3 → (t1 <= t2)%Q → (t2 <= t3)%Q →
  put_many 2 [(fp1, r1, t1); (fp2, r2, t2); (fp3, r3, t3)] []
  = [(fp2, cached_of r2 t2); (fp3, cached_of r3 t3)].
Proof.
  intros H12 H13 H23 Ht12 Ht23.
  assert (t1 <= t3)%Q as Ht13 by (by eapply Qle_trans).
  apply Qltb_false in Ht12, Ht13.
  unfold put_many, put_cached_limit. cbn [cache_store length].
  rewrite (decide_False (P := 2 < 1)); [|lia].
  cbn [cache_store]. rewrite (decide_False (P := fp1 = fp2)); [|done].
  cbn [length]. rewrite (decide_False (P := 2 < 2)); [|lia].
  cbn [cache_store]. rewrite (decide_False (P := fp1 = fp3)); [|done].
  rewrite (decide_False (P := fp2 = fp3)); [|done].
  cbn [length]. rewrite (decide_True (P := 2 < 3)); [|lia].
  cbn [oldest_key min_from snd cached_of cached_timestamp].
  rewrite Ht12. cbn [min_from snd cached_timestamp]. rewrite Ht13.
  cbn [fst cache_delete]. by rewrite decide_True.
Qed.

(** C4.  After every write the cache holds at most [limit] entries, from
    the empty cache on and for any run of writes.  An insertion (a write of
    a key not yet present) into a cache that holds exactly [limit] entries
    removes exactly one entry, one with the smallest timestamp, and leaves
    [limit] entries.  The code removes after inserting; under a clock that
    has not gone back the entry removed is an old one, the earliest
    inserted among the oldest, and the result is the same as removing it
    first and inserting then.  With a bound of 2, writing fp1, fp2, fp3 in
    this order leaves fp2 and fp3 retrievable and fp1 gone. *)
Theorem cache_bounded_oldest_evicted (limit : nat) :
  (∀ key r now c,
     length c ≤ limit → length (put_cached_limit limit key r now c) ≤ limit) ∧
  (∀ writes, length (put_many limit writes []) ≤ limit) ∧
  (∀ key r now c,
     length c = limit → cache_lookup key c = None →
     ∃ m, m ∈ c ++ [(key, cached_of r now)] ∧
          Forall (fun kv => (cached_timestamp m.2 <= cached_timestamp kv.2)%Q)
                 (c ++ [(key, cached_of r now)]) ∧
          put_cached_limit limit key r now c
            = cache_delete m.1 (c ++ [(key, cached_of r now)]) ∧
          length (put_cached_limit limit key r now c) = limit) ∧
  (∀ key r now c,
     0 < limit → length c = limit → cache_lookup key c = None → not_after now c →
     ∃ m, m ∈ c ∧ oldest_key c = Some m.1 ∧
          Forall (fun kv => (cached_timestamp m.2 <= cached_timestamp kv.2)%Q) c ∧
          put_cached_limit limit key r now c
            = cache_delete m.1 c ++ [(key, cached_of r now)] ∧
          put_cached_limit limit key r now c = put_evict_first limit key r now c ∧
          length (put_cached_limit limit key r now c) = limit) ∧
  (∀ fp1 fp2 fp3 r1 r2 r3 (t1 t2 t3 : Q),
     fp1 ≠ fp2 → fp1 ≠ fp3 → fp2 ≠ fp3 → (t1 <= t2)%Q → (t2 <= t3)%Q →
     let c := put_many 2 [(fp1, r1, t1); (fp2, r2, t2); (fp3, r3, t3)] [] in
     cache_lookup fp1 c = None ∧
     cache_lookup fp2 c = Some (cached_of r2 t2) ∧
     cache_lookup fp3 c = Some (cached_of r3 t3) ∧
     ∀ ttl start_time now hit_time,
       (now - t3 < ttl)%Q → (now - t2 < ttl)%Q →
       (get_cached ttl start_time now hit_time fp1 c).2 = None ∧
       (get_cached ttl start_time now hit_time fp2 c).2
         = Some (mark_hit (cached_of r2 t2) (hit_time - start_time)) ∧
       (get_cached ttl start_time now hit_time fp3 c).2
         = Some (mark_hit (cached_of r3 t3) (hit_time - start_time))).
Proof.
  split_and!.
  - intros. by apply put_cached_limit_length.
  - intros. apply put_many_length. simpl. lia.
  - intros. by apply put_cached_limit_evicts.
  - intros key r now c Hpos Hlen Hfresh Hclock.
    destruct (put_cached_limit_full limit key r now c Hpos Hlen Hfresh Hclock)
      as (m & Hin & Hold & Hleast & Hput).
    exists m. split_and!; try done.
    + rewrite Hput. symmetry. by apply put_evict_first_full.
    + rewrite Hput, length_app. simpl.
      pose proof (cache_delete_length m.1 c (cache_lookup_elem _ _ Hin)). lia.
  - intros fp1 fp2 fp3 r1 r2 r3 t1 t2 t3 H12 H13 H23 Ht12 Ht23 c.
    unfold c. rewrite put_three_into_two; [|done..].
    assert (cache_lookup fp1 [(fp2, cached_of r2 t2); (fp3, cached_of r3 t3)] = None) as L1.
    { simpl. rewrite !decide_False; congruence. }
    assert (cache_lookup fp2 [(fp2, cached_of r2 t2); (fp3, cached_of r3 t3)]
            = Some (cached_of r2 t2)) as L2.
    { simpl. by rewrite decide_True. }
    assert (cache_lookup fp3 [(fp2, cached_of r2 t2); (fp3, cached_of r3 t3)]
            = Some (cached_of r3 t3)) as L3.
    { simpl. rewrite decide_False; [|done]. by rewrite decide_True. }
    split_and!; [done..|].
    intros ttl start_time now hit_time Hage3 Hage2. split_and!.
    + by rewrite get_cached_absent.
    + by rewrite (get_cached_hit _ _ _ _ _ _ (cached_of r2 t2)).
    + by rewrite (get_cached_hit _ _ _ _ _ _ (cached_of r3 t3)).
Qed.

Lemma cache_bounded_oldest_evicted_witness :
  let c := put_many 2 [("u1:1", sample_result "a", 10%Q); ("u1:2", sample_result "b", 20%Q);
                       ("u1:3", sample_result "c", 30%Q)] [] in
  cache_lookup "u1:1" c = None ∧
  cache_lookup "u1:2" c = Some (cached_of (sample_result "b") 20) ∧
  cache_lookup "u1:3" c = Some (cached_of (sample_result "c") 30).
Proof.
  destruct (cache_bounded_oldest_evicted 2) as (_ & _ & _ & _ & H).
  destruct (H "u1:1" "u1:2" "u1:3" (sample_result "a") (sample_result "b")
              (sample_result "c") 10%Q 20%Q 30%Q) as (H1 & H2 & H3 & _);
    [discriminate..|].
  by split_and!.
Defined.

(** C8 (as the code has it).  Reading a key right after writing it, before
    its time to live is over, returns the dictionary that was stored: the
    answer, the confidence score and the context are those of the written
    result, while ['from_cache'] is [True] and ['response_time'] is the time
    the read took.  The cache is assumed within its bound, the bound
    positive, and the clock not behind a stored timestamp. *)
Theorem put_then_get_hit limit key r (now : Q) c ttl start_time t hit_time :
  0 < limit → length c ≤ limit → not_after now c → (t - now < ttl)%Q →
  ∃ v, (get_cached ttl start_time t hit_time key
          (put_cached_limit limit key r now c)).2 = Some v ∧
       cached_answer v = answer r ∧
       cached_confidence_score v = confidence_score r ∧
       cached_context v = context r ∧
       cached_from_cache v = true ∧
       cached_response_time v = (hit_time - start_time)%Q.
Proof.
  intros Hpos Hlen Hclock Hage.
  exists (mark_hit (cached_of r now) (hit_time - start_time)).
  split_and!; try done.
  rewrite (get_cached_hit _ _ _ _ _ _ (cached_of r now)); [done| |done].
  by apply put_cached_limit_lookup.
Qed.

Lemma put_then_get_hit_witness :
  ∃ v, (get_cached cache_ttl 1000 1000 1001 "u1:42"
          (put_cached "u1:42" (sample_result "a") 1000 [])).2 = Some v ∧
       cached_answer v = "a" ∧
       cached_confidence_score v = 0.8%Q ∧
       cached_context v = None ∧
       cached_from_cache v = true ∧
       cached_response_time v = (1001 - 1000)%Q.
Proof.
  apply (put_then_get_hit cache_limit "u1:42" (sample_result "a") 1000 []
           cache_ttl 1000 1000 1001).
  - unfold cache_limit. lia.
  - simpl. lia.
  - constructor.
  - reflexivity.
Defined.

(** C8, the claim as stated fails: the dictionary read back right after the
    write is not the one that was written, its ['from_cache'] is [True]
    where the written one has [False]. *)
Lemma put_then_get_differs :
  let r := sample_result "a" in
  let c := put_cached "u1:42" r 1000 [] in
  ∃ v, (get_cached cache_ttl 1000 1000 1000 "u1:42" c).2 = Some v ∧
       v ≠ cached_of r 1000 ∧
       cached_from_cache v = true ∧ from_cache r = false.
Proof.
  eexists. split; [reflexivity|]. split_and!; [|reflexivity..].
  intros H. discriminate H.
Qed.

End EvictionTheorems.


Section LimiterTheorems.
Import RateLimiter.
Local Open Scope Z_scope.

Lemma bucket_insert_eq (m : gmap string (list Q)) client_id b :
  bucket (<[client_id := b]> m) client_id = b.
Proof. unfold bucket. by rewrite lookup_insert_eq. Qed.

Lemma bucket_insert_ne (m : gmap string (list Q)) client_id other b :
  other ≠ client_id → bucket (<[client_id := b]> m) other = bucket m other.
Proof. intros Hne. unfold bucket. by rewrite lookup_insert_ne. Qed.

Lemma clean_length t (b : list Q) w :
  (length (_clean_old_requests t b w) ≤ length b)%nat.
Proof. apply List.filter_length_le. Qed.

(** What one call does to the state and what it answers, by cases on the
    two comparisons. *)
Lemma check_rate_limit_cases cfg client_id current_time t_minute t_hour st :
  let mb := _clean_old_requests t_minute (bucket (minute_buckets st) client_id) 60 in
  let hb := _clean_old_requests t_hour (bucket (hour_buckets st) client_id) 3600 in
  let r := check_rate_limit cfg client_id current_time t_minute t_hour st in
  (Z.of_nat (length mb) < requests_per_minute cfg ∧
   Z.of_nat (length hb) < requests_per_hour cfg ∧
   r = (mkState (<[client_id := mb ++ [current_time]]> (minute_buckets st))
                (<[client_id := hb ++ [current_time]]> (hour_buckets st)), Allowed)) ∨
  (¬ (Z.of_nat (length mb) < requests_per_minute cfg ∧
      Z.of_nat (length hb) < requests_per_hour cfg) ∧
   ∃ detail,
     r = (mkState (<[client_id := mb]> (minute_buckets st))
                  (<[client_id := hb]> (hour_buckets st)), TooManyRequests detail)).
Proof.
  intros mb hb r. unfold r, check_rate_limit. fold mb hb.
  case_decide as Hm; [right; split; [lia|by eexists]|].
  case_decide as Hh; [right; split; [lia|by eexists]|].
  left. split_and!; [lia|lia|done].
Qed.

Lemma check_rate_limit_bounded cfg client_id current_time t_minute t_hour st :
  minute_bounded cfg st →
  minute_bounded cfg (check_rate_limit cfg client_id current_time t_minute t_hour st).1.
Proof.
  intros Hst c.
  pose proof (clean_length t_minute (bucket (minute_buckets st) client_id) 60) as Hclean.
  specialize (Hst client_id) as Hold.
  destruct (check_rate_limit_cases cfg client_id current_time t_minute t_hour st)
    as [(Hm & _ & ->)|(_ & detail & ->)]; simpl;
    (destruct (decide (c = client_id)) as [->|Hne];
     [rewrite bucket_insert_eq|rewrite bucket_insert_ne; [apply Hst|done]]).
  - rewrite length_app. simpl. lia.
  - lia.
Qed.

Lemma check_many_bounded cfg calls : ∀ st,
  minute_bounded cfg st → minute_bounded cfg (check_many cfg calls st).1.
Proof.
  induction calls as [|[[[client_id current_time] t_minute] t_hour] calls IH];
    intros st Hst; [done|].
  simpl.
  pose proof (check_rate_limit_bounded cfg client_id current_time t_minute t_hour st Hst).
  destruct (check_rate_limit cfg client_id current_time t_minute t_hour st) as [st1 o].
  specialize (IH st1). destruct (check_many cfg calls st1) as [st2 os]. by apply IH.
Qed.

(** C10.  The time of a request is appended to the client's minute and hour
    buckets exactly when the request is allowed, that is when both cleaned
    buckets are below their limits.  A denied request (429) is not
    recorded: the client's buckets are then the cleaned ones, the old
    readings that are still inside the window, so a denied request uses up
    no allowance.  No other client's bucket changes.  The minute bucket
    never holds more than [requests_per_minute] readings after a call, in
    any run of calls from the empty limiter. *)
Theorem denied_request_not_recorded cfg client_id current_time t_minute t_hour st :
  let mb := _clean_old_requests t_minute (bucket (minute_buckets st) client_id) 60 in
  let hb := _clean_old_requests t_hour (bucket (hour_buckets st) client_id) 3600 in
  let r := check_rate_limit cfg client_id current_time t_minute t_hour st in
  (r.2 = Allowed ↔
     Z.of_nat (length mb) < requests_per_minute cfg ∧
     Z.of_nat (length hb) < requests_per_hour cfg) ∧
  (r.2 = Allowed →
     bucket (minute_buckets r.1) client_id = mb ++ [current_time] ∧
     bucket (hour_buckets r.1) client_id = hb ++ [current_time]) ∧
  (r.2 ≠ Allowed →
     bucket (minute_buckets r.1) client_id = mb ∧
     bucket (hour_buckets r.1) client_id = hb ∧
     (length mb ≤ length (bucket (minute_buckets st) client_id))%nat ∧
     (length hb ≤ length (bucket (hour_buckets st) client_id))%nat) ∧
  (∀ other, other ≠ client_id →
     bucket (minute_buckets r.1) other = bucket (minute_buckets st) other ∧
     bucket (hour_buckets r.1) other = bucket (hour_buckets st) other) ∧
  (r.2 = Allowed ∨
   Z.of_nat (length (bucket (minute_buckets st) client_id)) ≤ requests_per_minute cfg →
   Z.of_nat (length (bucket (minute_buckets r.1) client_id)) ≤ requests_per_minute cfg) ∧
  (0 ≤ requests_per_minute cfg →
   ∀ calls c,
     Z.of_nat (length (bucket (minute_buckets (check_many cfg calls initial).1) c))
     ≤ requests_per_minute cfg).
Proof.
  intros mb hb r.
  pose proof (clean_length t_minute (bucket (minute_buckets st) client_id) 60) as Hcm.
  pose proof (clean_length t_hour (bucket (hour_buckets st) client_id) 3600) as Hch.
  fold mb in Hcm. fold hb in Hch.
  destruct (check_rate_limit_cases cfg client_id current_time t_minute t_hour st)
    as [(Hm & Hh & Hr)|(Hno & detail & Hr)]; fold mb hb r in Hm, Hh, Hr || fold mb hb r in Hno, Hr;
    rewrite Hr; simpl; rewrite !bucket_insert_eq.
  - split_and!; try done.
    + intros other Hne. by rewrite !bucket_insert_ne.
    + intros _. rewrite length_app. simpl. lia.
    + intros Hpos calls c. apply check_many_bounded.
      intros c'. unfold initial, bucket; simpl. by rewrite lookup_empty.
  - split_and!; try done.
    + intros other Hne. by rewrite !bucket_insert_ne.
    + intros [?|Hold]; [done|lia].
    + intros Hpos calls c. apply check_many_bounded.
      intros c'. unfold initial, bucket; simpl. by rewrite lookup_empty.
Qed.

Lemma denied_request_not_recorded_witness :
  let st := (check_many (mkConfig 2 10) [("10.0.0.1", 1%Q, 1%Q, 1%Q);
                                         ("10.0.0.1", 2%Q, 2%Q, 2%Q)] initial).1 in
  let r := check_rate_limit (mkConfig 2 10) "10.0.0.1" 3 3 3 st in
  r.2 ≠ Allowed ∧ bucket (minute_buckets r.1) "10.0.0.1" = [1%Q; 2%Q].
Proof.
  intros st r. subst r.
  assert ((check_rate_limit (mkConfig 2 10) "10.0.0.1" 3 3 3 st).2 ≠ Allowed) as Hdenied
    by (vm_compute; discriminate).
  split; [exact Hdenied|].
  destruct (denied_request_not_recorded (mkConfig 2 10) "10.0.0.1" 3 3 3 st)
    as (_ & _ & Hd & _).
  destruct (Hd Hdenied) as (-> & _). reflexivity.
Defined.

End LimiterTheorems.


(** * Further properties of the code *)

Section StoreInvariant.
Import AuthSystem Sessions.
Local Open Scope nat_scope.

(** Two stores with the same keys, ids and emails, position by position. *)
Lemma same_ids_numbered (db db' : list (string * User)) :
  Forall2 (fun a b => a.1 = b.1 ∧ user_id a.2 = user_id b.2 ∧ email a.2 = email b.2) db db' →
  numbered db → NoDup db.*1 → numbered db' ∧ NoDup db'.*1.
Proof.
  intros Hsame Hnum Hdup. split.
  - intros i e' u' Hi.
    destruct (Forall2_lookup_r _ _ _ _ _ Hsame Hi) as ([e u] & Hi0 & He & Hu & Hm).
    simpl in *. destruct (Hnum i e u Hi0) as [Hid Hmail]. split; congruence.
  - enough (db'.*1 = db.*1) as -> by done. clear Hnum Hdup.
    induction Hsame as [|[e u] [e' u'] db db' (He & _) _ IH]; [done|].
    rewrite !fmap_cons. simpl in He. by f_equal.
Qed.

Lemma same_ids_refl (db : list (string * User)) :
  Forall2 (fun a b => a.1 = b.1 ∧ user_id a.2 = user_id b.2 ∧ email a.2 = email b.2) db db.
Proof. induction db; by constructor. Qed.

Lemma update_user_plan_same_ids uid new_plan now_iso (db : list (string * User)) :
  Forall2 (fun a b => a.1 = b.1 ∧ user_id a.2 = user_id b.2 ∧ email a.2 = email b.2)
          db (update_user_plan uid new_plan now_iso db).1.
Proof.
  induction db as [|[e u] db IH]; simpl; [constructor|].
  case_decide; simpl.
  - constructor; [done|]. apply same_ids_refl.
  - destruct (update_user_plan uid new_plan now_iso db). by constructor.
Qed.

Lemma check_rate_limit_same_ids env today uid (db : list (string * User)) :
  Forall2 (fun a b => a.1 = b.1 ∧ user_id a.2 = user_id b.2 ∧ email a.2 = email b.2)
          db (check_rate_limit env today uid db).1.
Proof.
  induction db as [|[e u] db IH]; simpl; [constructor|].
  case_decide; simpl.
  - constructor; [done|]. apply same_ids_refl.
  - destruct (check_rate_limit env today uid db). by constructor.
Qed.

Lemma increment_usage_same_ids uid (db : list (string * User)) :
  Forall2 (fun a b => a.1 = b.1 ∧ user_id a.2 = user_id b.2 ∧ email a.2 = email b.2)
          db (increment_usage uid db).1.
Proof.
  induction db as [|[e u] db IH]; simpl; [constructor|].
  case_decide; simpl.
  - constructor; [done|]. apply same_ids_refl.
  - destruct (increment_usage uid db). by constructor.
Qed.

Lemma has_email_false mail (db : list (string * User)) : has_email mail db = false ↔ mail ∉ db.*1.
Proof.
  induction db as [|[e u] db IH]; simpl.
  - split; [intros _; apply not_elem_of_nil|done].
  - rewrite orb_false_iff, IH, not_elem_of_cons, bool_decide_eq_false.
    split; intros [H1 H2]; (split; [congruence|done]).
Qed.

Lemma register_user_numbered mail hashed nm now_iso today token (db : list (string * User)) :
  numbered db → NoDup db.*1 →
  numbered (register_user mail hashed nm now_iso today token db).1 ∧
  NoDup (register_user mail hashed nm now_iso today token db).1.*1.
Proof.
  intros Hnum Hdup. unfold register_user.
  destruct (has_email mail db) eqn:Hmail; [done|]. simpl. split.
  - intros i e u Hi. apply lookup_app_Some in Hi as [Hi|[Hlen Hi]]; [by apply Hnum|].
    apply list_lookup_singleton_Some in Hi as [Hi0 [= <- <-]]. simpl.
    replace i with (length db) by lia. by rewrite Nat.add_1_r.
  - rewrite fmap_app. simpl. apply NoDup_app. split_and!; [done| |apply NoDup_singleton].
    intros x Hx ->%list_elem_of_singleton. by apply has_email_false in Hmail.
Qed.

Lemma run_ops_numbered ops : numbered (run_ops ops) ∧ NoDup (run_ops ops).*1.
Proof.
  unfold run_ops. induction ops as [|op ops IH] using rev_ind.
  - split; [by intros i e u ?|constructor].
  - rewrite foldl_app. simpl. destruct IH as [Hnum Hdup].
    destruct op; simpl.
    + by apply register_user_numbered.
    + by eapply same_ids_numbered; [apply update_user_plan_same_ids|..].
    + by eapply same_ids_numbered; [apply check_rate_limit_same_ids|..].
    + by eapply same_ids_numbered; [apply increment_usage_same_ids|..].
Qed.

Lemma user_id_inj (i j : nat) : "user_" +:+ pretty (S i) = "user_" +:+ pretty (S j) → i = j.
Proof. intros H%(inj (String.app "user_"))%(inj pretty). lia. Qed.

Lemma numbered_unmatched (pre : list (string * User)) e u post :
  numbered (pre ++ (e, u) :: post) → unmatched (user_id u) pre.
Proof.
  intros Hnum. apply Forall_lookup. intros i [e0 u0] Hi Heq. simpl in Heq.
  pose proof (lookup_lt_Some _ _ _ Hi) as Hlt.
  destruct (Hnum i e0 u0) as [Hid0 _]; [by apply lookup_app_l_Some|].
  destruct (Hnum (length pre) e u) as [Hid _].
  { by apply list_lookup_middle. }
  rewrite Hid0, Hid in Heq. apply user_id_inj in Heq. lia.
Qed.

Lemma dict_get_unique (db : list (string * User)) e u :
  NoDup db.*1 → (e, u) ∈ db → dict_get e db = Some u.
Proof.
  induction db as [|[e0 u0] db IH]; [by intros _ ?%not_elem_of_nil|].
  simpl. intros [Hnot Hdup]%NoDup_cons [[= -> ->]|Hin]%elem_of_cons.
  - by rewrite decide_True.
  - rewrite decide_False; [by apply IH|].
    intros ->. apply Hnot. apply list_elem_of_fmap. by exists (e, u).
Qed.

(** X1.  In every store that calls of [register_user], [update_user_plan],
    [check_rate_limit] and [increment_usage] build from the empty store,
    the record at position [i] carries the id [user_(i+1)] and its own
    email, no email is filed twice, and no two records share a user id:
    the search by user id and the look-up by email both reach exactly the
    record of that user. *)
Theorem user_ids_never_collide ops :
  let db := run_ops ops in
  numbered db ∧ NoDup db.*1 ∧
  (∀ i j e u e' u',
     db !! i = Some (e, u) → db !! j = Some (e', u') → user_id u = user_id u' → i = j) ∧
  (∀ e u, (e, u) ∈ db → find_user (user_id u) db = Some u ∧ dict_get e db = Some u).
Proof.
  intros db. destruct (run_ops_numbered ops) as [Hnum Hdup]. fold db in Hnum, Hdup.
  split_and!; [done..| |].
  - intros i j e u e' u' Hi Hj Heq.
    destruct (Hnum i e u Hi) as [Hid _]. destruct (Hnum j e' u' Hj) as [Hid' _].
    rewrite Hid, Hid' in Heq. by apply user_id_inj.
  - intros e u Hin. split; [|by apply dict_get_unique].
    destruct (list_elem_of_split _ _ Hin) as (pre & post & Heq).
    rewrite Heq in Hnum |- *. apply find_user_found; [|done].
    by eapply numbered_unmatched.
Qed.

End StoreInvariant.

Section RegistrationTheorems.
Import AuthSystem Sessions.
Local Open Scope Z_scope.

Lemma find_user_app_l uid (db more : list (string * User)) u :
  find_user uid db = Some u → find_user uid (db ++ more) = Some u.
Proof.
  induction db as [|[e0 u0] db IH]; simpl; [done|].
  case_decide; [done|apply IH].
Qed.

Lemma find_user_unmatched uid (db : list (string * User)) :
  unmatched uid db → find_user uid db = None.
Proof.
  induction 1 as [|[e0 u0] db Hne _ IH]; simpl in *; [done|].
  by rewrite decide_False.
Qed.

(** X2.  Registration on a store built by the methods of [AuthSystem].  An
    email that is already filed is refused and the store is left as it is,
    so the record, its password hash and its count survive a second
    registration.  A new email gets a record under an id that no record
    had: every user found before is found unchanged, the new user is
    found, and the first rate check of the new user on the day of the
    registration reports nothing used and the whole free quota
    remaining, when that quota is positive. *)
Theorem register_user_fresh_record ops mail hashed nm now_iso today token :
  let db := run_ops ops in
  let r := register_user mail hashed nm now_iso today token db in
  (has_email mail db = true → r = (db, RegisterFailed "User already exists")) ∧
  (has_email mail db = false →
     ∃ u, r = (db ++ [(mail, u)], Registered (user_id u) mail (name u) "free" token) ∧
          find_user (user_id u) db = None ∧
          find_user (user_id u) r.1 = Some u ∧
          (∀ uid u0, find_user uid db = Some u0 → find_user uid r.1 = Some u0) ∧
          (∀ env, 0 < FREE_TIER_DAILY_LIMIT env →
             check_rate_limit env today (user_id u) r.1
             = (r.1, RateOk (FREE_TIER_DAILY_LIMIT env) 0 (FREE_TIER_DAILY_LIMIT env) "free"))).
Proof.
  intros db r. subst r.
  destruct (run_ops_numbered ops) as [Hnum Hdup]. fold db in Hnum, Hdup.
  pose proof (register_user_numbered mail hashed nm now_iso today token db Hnum Hdup)
    as [Hnum' _].
  unfold register_user in *. split; intros Hmail; rewrite Hmail in *; [done|].
  cbn [fst] in *.
  set (u := mkUser ("user_" +:+ pretty (length db + 1)%nat) mail hashed
              (or_else nm (split_head "@"%char mail)) "free" now_iso
              (mkUsage 0 today) None None None) in *.
  assert (unmatched (user_id u) db) as Hfresh by (by eapply numbered_unmatched).
  exists u. split_and!.
  - done.
  - by apply find_user_unmatched.
  - by apply find_user_found.
  - intros uid u0. apply find_user_app_l.
  - intros env Hpos. rewrite check_rate_limit_found; [|done..]. simpl.
    unfold reset_if_needed; simpl. rewrite decide_False; [|naive_solver].
    unfold rate_decision; simpl. fold u.
    assert (limits_get env "free" = FREE_TIER_DAILY_LIMIT env) as -> by done.
    rewrite decide_False; [|lia]. do 2 f_equal. lia.
Qed.

Lemma register_user_fresh_record_witness :
  let db := run_ops [OpRegister "a@example.org" "h1" None "2024-03-05T09:00:00" "2024-03-05" "t1";
                     OpIncrement "user_1"] in
  (register_user "a@example.org" "h2" (Some "A") "2024-03-06T09:00:00" "2024-03-06" "t2" db).1 = db ∧
  ∃ u, register_user "b@example.org" "h2" None "2024-03-06T09:00:00" "2024-03-06" "t2" db
       = (db ++ [("b@example.org", u)], Registered (user_id u) "b@example.org" (name u) "free" "t2") ∧
       user_id u = "user_2".
Proof.
  intros db. subst db.
  destruct (register_user_fresh_record
              [OpRegister "a@example.org" "h1" None "2024-03-05T09:00:00" "2024-03-05" "t1";
               OpIncrement "user_1"]
              "a@example.org" "h2" (Some "A") "2024-03-06T09:00:00" "2024-03-06" "t2")
    as [Hdup _].
  destruct (register_user_fresh_record
              [OpRegister "a@example.org" "h1" None "2024-03-05T09:00:00" "2024-03-05" "t1";
               OpIncrement "user_1"]
              "b@example.org" "h2" None "2024-03-06T09:00:00" "2024-03-06" "t2")
    as [_ Hnew].
  split.
  - rewrite (Hdup eq_refl). reflexivity.
  - destruct (Hnew eq_refl) as (u & Hr & _). exists u. split; [exact Hr|].
    injection Hr as Hu _. rewrite <- Hu. reflexivity.
Defined.

(** X3.  A change of plan takes effect at the next rate check and keeps the
    count of the day: after [update_user_plan] the check of that user
    compares the unchanged stored count against the limit of the new plan,
    and no other user's record changes. *)
Theorem update_user_plan_takes_effect env today uid new_plan now_iso db u :
  find_user uid db = Some u →
  last_reset (usage u) = today →
  let db1 := (update_user_plan uid new_plan now_iso db).1 in
  (update_user_plan uid new_plan now_iso db).2 = PlanUpdated new_plan ∧
  find_user uid db1 = Some (set_plan u new_plan now_iso) ∧
  (∀ other, other ≠ uid → find_user other db1 = find_user other db) ∧
  (check_rate_limit env today uid db1).2
  = (if decide (daily_count (usage u) >= limits_get env new_plan)
     then DailyLimitReached (limits_get env new_plan) (daily_count (usage u)) new_plan
     else RateOk (limits_get env new_plan) (daily_count (usage u))
                 (limits_get env new_plan - daily_count (usage u)) new_plan).
Proof.
  intros Hfind Hday db1. subst db1.
  destruct (find_user_split _ _ _ Hfind) as (pre & e & post & -> & Hpre & Hu).
  assert (update_user_plan uid new_plan now_iso (pre ++ (e, u) :: post)
          = (pre ++ (e, set_plan u new_plan now_iso) :: post, PlanUpdated new_plan)) as ->.
  { clear Hfind. induction Hpre as [|[e0 u0] pre Hne _ IH]; simpl in *.
    - by rewrite decide_True.
    - rewrite decide_False; [|done]. by rewrite IH. }
  cbn [fst snd]. split_and!.
  - done.
  - by apply find_user_found.
  - intros other Hne. clear Hfind. induction pre as [|[e0 u0] pre IH]; simpl.
    + rewrite !decide_False; congruence.
    + apply Forall_cons in Hpre as [_ Hpre]. by rewrite IH.
  - rewrite check_rate_limit_found; [|done..]. simpl.
    unfold reset_if_needed; simpl. rewrite decide_False; [|naive_solver].
    by destruct u as [? ? ? ? ? ? [??] ? ? ?].
Qed.

Lemma update_user_plan_takes_effect_witness :
  (check_rate_limit default_limits "2024-03-05" "u1"
     (update_user_plan "u1" "pro" "2024-03-05T12:00:00" (sample_db "free" 10 "2024-03-05")).1).2
  = RateOk 100 10 90 "pro".
Proof.
  refine (proj2 (proj2 (proj2 (update_user_plan_takes_effect default_limits "2024-03-05" "u1"
            "pro" "2024-03-05T12:00:00" (sample_db "free" 10 "2024-03-05")
            (sample_user "u1" "free" 10 "2024-03-05") _ _)))); reflexivity.
Defined.

End RegistrationTheorems.

Section SessionTheorems.
Import AuthSystem Sessions.
Local Open Scope nat_scope.

Lemma dict_set_fresh {V} k (v : V) (d : list (string * V)) :
  dict_get k d = None → dict_set k v d = d ++ [(k, v)].
Proof.
  induction d as [|[k0 v0] d IH]; simpl; [done|].
  case_decide; [done|]. intros H'. by rewrite IH.
Qed.

Lemma dict_set_length {V} k (v : V) (d : list (string * V)) :
  length (dict_set k v d)
  = match dict_get k d with Some _ => length d | None => S (length d) end.
Proof.
  induction d as [|[k0 v0] d IH]; simpl; [done|].
  case_decide; simpl; [done|]. rewrite IH. by destruct (dict_get k d).
Qed.

Lemma dict_get_set_eq {V} k (v : V) (d : list (string * V)) :
  dict_get k (dict_set k v d) = Some v.
Proof.
  induction d as [|[k0 v0] d IH]; simpl.
  - by rewrite decide_True.
  - case_decide; simpl; [by rewrite decide_True|by rewrite decide_False].
Qed.

Lemma dict_get_set_ne {V} k k' (v : V) (d : list (string * V)) :
  k ≠ k' → dict_get k' (dict_set k v d) = dict_get k' d.
Proof.
  intros Hne. induction d as [|[k0 v0] d IH]; simpl.
  - by rewrite decide_False.
  - case_decide; simpl; [subst; by rewrite !decide_False|].
    case_decide; [done|apply IH].
Qed.

Lemma remove_session_unused token (ss : list (string * Session)) :
  Forall (fun kv => session_token kv.2 ≠ token) ss → remove_session token ss = ss.
Proof.
  induction 1 as [|[sid s] ss Hne _ IH]; simpl in *; [done|].
  rewrite decide_False; [|done]. by rewrite IH.
Qed.

Lemma remove_session_app token (ss : list (string * Session)) sid s :
  Forall (fun kv => session_token kv.2 ≠ token) ss → session_token s = token →
  remove_session token (ss ++ [(sid, s)]) = ss.
Proof.
  intros Hss Hs. induction Hss as [|[sid0 s0] ss Hne _ IH]; simpl in *.
  - by rewrite decide_True.
  - rewrite decide_False; [|done]. by rewrite IH.
Qed.

Lemma login_success verify_password mail pass token now_iso db (ss : sessions) u :
  dict_get mail db = Some u → verify_password pass (password u) = true →
  login verify_password mail pass token now_iso db ss
  = (dict_set ("session_" +:+ pretty (S (length ss)))
              (mkSession (user_id u) (email u) token now_iso) ss,
     LoggedIn (user_id u) (email u) (name u) (plan u) token
              ("session_" +:+ pretty (S (length ss)))).
Proof. intros Hu Hpw. unfold login. by rewrite Hu, Hpw, Nat.add_1_r. Qed.

(** X4.  [login] answers 'Invalid credentials' both for an email that is not
    filed and for a password that does not verify, and leaves the sessions
    as they are.  A successful [login] files a session under
    [session_(n+1)], [n] being the number of sessions; when that id is free
    and the token is not held by a session yet, [logout] with the token
    puts the sessions back as they were. *)
Theorem login_then_logout verify_password mail pass token now_iso db (ss : sessions) :
  (dict_get mail db = None →
     login verify_password mail pass token now_iso db ss = (ss, InvalidCredentials)) ∧
  (∀ u, dict_get mail db = Some u → verify_password pass (password u) = false →
     login verify_password mail pass token now_iso db ss = (ss, InvalidCredentials)) ∧
  (∀ u, dict_get mail db = Some u → verify_password pass (password u) = true →
     let sid := "session_" +:+ pretty (S (length ss)) in
     let r := login verify_password mail pass token now_iso db ss in
     r.2 = LoggedIn (user_id u) (email u) (name u) (plan u) token sid ∧
     dict_get sid r.1 = Some (mkSession (user_id u) (email u) token now_iso) ∧
     (∀ other, other ≠ sid → dict_get other r.1 = dict_get other ss) ∧
     (dict_get sid ss = None →
      Forall (fun kv => session_token kv.2 ≠ token) ss →
      logout true token r.1 = (ss, LoggedOut))).
Proof.
  unfold login. split_and!.
  - by intros ->.
  - by intros u -> ->.
  - intros u Hu Hpw. cbv zeta. rewrite Hu, Hpw, Nat.add_1_r. cbn [fst snd].
    split_and!.
    + done.
    + apply dict_get_set_eq.
    + intros other Hne. by apply dict_get_set_ne.
    + intros Hfree Hunused. unfold logout. rewrite dict_set_fresh; [|done].
      by rewrite remove_session_app.
Qed.

Lemma login_then_logout_witness :
  let db := sample_db "free" 0 "2024-03-05" in
  let r := login (fun p h => bool_decide (h = "$2b$12$hash")) "u1@example.org" "pw" "tok"
                 "2024-03-05T10:00:00" db [] in
  r.2 = LoggedIn "u1" "u1@example.org" "u1" "free" "tok" "session_1" ∧
  logout true "tok" r.1 = ([], LoggedOut).
Proof.
  intros db r. subst db r.
  destruct (login_then_logout (fun p h => bool_decide (h = "$2b$12$hash")) "u1@example.org"
              "pw" "tok" "2024-03-05T10:00:00" (sample_db "free" 0 "2024-03-05") [])
    as (_ & _ & H).
  destruct (H (sample_user "u1" "free" 0 "2024-03-05") eq_refl eq_refl) as (H1 & _ & _ & H2).
  split; [exact H1|]. apply H2; [reflexivity|constructor].
Defined.

(** X5.  Session ids are reused.  [login] files the new session under the id
    made from the number of sessions, so when that id belongs to a live
    session, which happens once an older session has been removed by
    [logout], the live session is replaced and the number of sessions does
    not grow.  From the empty sessions: two logins, the logout of the
    first and a third login leave one session, the third; the session of
    the second login is gone without a logout of its own. *)
Theorem login_replaces_live_session verify_password db :
  (∀ mail pass token now_iso (ss : sessions) u old,
     dict_get mail db = Some u → verify_password pass (password u) = true →
     dict_get ("session_" +:+ pretty (S (length ss))) ss = Some old →
     let r := login verify_password mail pass token now_iso db ss in
     length r.1 = length ss ∧
     dict_get ("session_" +:+ pretty (S (length ss))) r.1
     = Some (mkSession (user_id u) (email u) token now_iso)) ∧
  (∀ m1 p1 t1 n1 u1 m2 p2 t2 n2 u2 m3 p3 t3 n3 u3,
     dict_get m1 db = Some u1 → verify_password p1 (password u1) = true →
     dict_get m2 db = Some u2 → verify_password p2 (password u2) = true →
     dict_get m3 db = Some u3 → verify_password p3 (password u3) = true →
     t1 ≠ t2 →
     let s1 := (login verify_password m1 p1 t1 n1 db []).1 in
     let s2 := (login verify_password m2 p2 t2 n2 db s1).1 in
     let s3 := (logout true t1 s2).1 in
     let s4 := (login verify_password m3 p3 t3 n3 db s3).1 in
     s2 = [("session_1", mkSession (user_id u1) (email u1) t1 n1);
           ("session_2", mkSession (user_id u2) (email u2) t2 n2)] ∧
     s4 = [("session_2", mkSession (user_id u3) (email u3) t3 n3)]).
Proof.
  split.
  - intros mail pass token now_iso ss u old Hu Hpw Hold. cbv zeta.
    unfold login. rewrite Hu, Hpw, Nat.add_1_r. cbn [fst]. split.
    + by rewrite dict_set_length, Hold.
    + apply dict_get_set_eq.
  - intros m1 p1 t1 n1 u1 m2 p2 t2 n2 u2 m3 p3 t3 n3 u3 H1 V1 H2 V2 H3 V3 Hne.
    cbv zeta.
    rewrite (login_success _ m1 p1 t1 n1 db [] u1 H1 V1). cbn [fst length dict_set].
    rewrite (login_success _ m2 p2 t2 n2 db _ u2 H2 V2). cbn [fst length].
    assert (dict_set ("session_" +:+ pretty 2)
              (mkSession (user_id u2) (email u2) t2 n2)
              [("session_" +:+ pretty 1, mkSession (user_id u1) (email u1) t1 n1)]
            = [("session_1", mkSession (user_id u1) (email u1) t1 n1);
               ("session_2", mkSession (user_id u2) (email u2) t2 n2)]) as -> by done.
    split; [done|].
    unfold logout. cbn [fst remove_session snd session_token].
    rewrite decide_True; [|done].
    by rewrite (login_success _ m3 p3 t3 n3 db _ u3 H3 V3).
Qed.

Lemma login_replaces_live_session_witness :
  let verify := fun (p h : string) => bool_decide (h = "$2b$12$hash") in
  let db := sample_db "free" 0 "2024-03-05" in
  let s1 := (login verify "u0@example.org" "pw" "t1" "n1" db []).1 in
  let s2 := (login verify "u1@example.org" "pw" "t2" "n2" db s1).1 in
  let s3 := (logout true "t1" s2).1 in
  (login verify "u0@example.org" "pw" "t3" "n3" db s3).1
  = [("session_2", mkSession "u0" "u0@example.org" "t3" "n3")].
Proof.
  intros verify db s1 s2 s3. subst verify db s1 s2 s3.
  destruct (login_replaces_live_session (fun (p h : string) => bool_decide (h = "$2b$12$hash"))
              (sample_db "free" 0 "2024-03-05")) as [_ H].
  destruct (H "u0@example.org" "pw" "t1" "n1" (sample_user "u0" "pro" 3 "2024-01-01")
              "u1@example.org" "pw" "t2" "n2" (sample_user "u1" "free" 0 "2024-03-05")
              "u0@example.org" "pw" "t3" "n3" (sample_user "u0" "pro" 3 "2024-01-01")
              eq_refl eq_refl eq_refl eq_refl eq_refl eq_refl) as [_ H4]; [discriminate|].
  exact H4.
Defined.

(** X6.  [logout] with a token that does not verify changes nothing.  With a
    token that verifies it answers success whether or not a session holds
    the token, removes at most one session, and never removes a session
    that holds another token. *)
Theorem logout_removes_at_most_one token (ss : sessions) :
  logout false token ss = (ss, InvalidToken) ∧
  (logout true token ss).2 = LoggedOut ∧
  (Forall (fun kv => session_token kv.2 ≠ token) ss → (logout true token ss).1 = ss) ∧
  (Exists (fun kv => session_token kv.2 = token) ss →
     S (length (logout true token ss).1) = length ss) ∧
  (∀ kv, kv ∈ ss → session_token kv.2 ≠ token → kv ∈ (logout true token ss).1).
Proof.
  unfold logout. cbn [fst snd]. split_and!; [done..| | |].
  - apply remove_session_unused.
  - induction 1 as [[sid s] ss Hs|[sid s] ss _ IH]; simpl in *.
    + by rewrite decide_True.
    + case_decide; [done|]. simpl. by rewrite IH.
  - intros kv Hin Hne. induction ss as [|[sid s] ss IH]; [done|]. simpl.
    apply elem_of_cons in Hin as [->|Hin].
    + rewrite decide_False; [|done]. apply elem_of_cons. by left.
    + case_decide; [done|]. apply elem_of_cons. right. by apply IH.
Qed.

Lemma logout_removes_at_most_one_witness :
  S (length (logout true "t1" [("session_1", mkSession "u0" "u0@example.org" "t1" "n1");
                               ("session_2", mkSession "u1" "u1@example.org" "t2" "n2")]).1)
  = 2.
Proof.
  apply (logout_removes_at_most_one "t1"
           [("session_1", mkSession "u0" "u0@example.org" "t1" "n1");
            ("session_2", mkSession "u1" "u1@example.org" "t2" "n2")]).
  apply Exists_cons_hd. reflexivity.
Defined.

End SessionTheorems.

Section DecoratorTheorems.
Import AuthSystem Sessions.
Local Open Scope Z_scope.

Lemma plan_level_range p : 0 <= plan_level p <= 2.
Proof. unfold plan_level. repeat case_decide; lia. Qed.

Lemma plan_level_zero p : plan_level p = 0 ↔ p ≠ "pro" ∧ p ≠ "business".
Proof.
  unfold plan_level. repeat case_decide; subst; split; try done; try lia.
  - intros [? _]. done.
  - intros [_ ?]. done.
Qed.

(** X7.  [require_plan] refuses a user exactly when the level of the user's
    plan is below the level of the required plan, the levels being 0 for
    'free', 1 for 'pro', 2 for 'business' and 0 for any other name.  So a
    'business' user is never refused, a required plan other than 'pro' and
    'business' refuses nobody, and a user whose plan is neither 'pro' nor
    'business' is refused by exactly the requirements 'pro' and
    'business'. *)
Theorem require_plan_levels minimum_plan user :
  (require_plan minimum_plan (Some user) = PlanAccepted ↔
     plan_level minimum_plan <= plan_level (public_plan user)) ∧
  (require_plan minimum_plan (Some user) ≠ PlanAccepted →
     require_plan minimum_plan (Some user) = Forbidden403 (public_plan user) minimum_plan) ∧
  (public_plan user = "business" → require_plan minimum_plan (Some user) = PlanAccepted) ∧
  (minimum_plan ≠ "pro" → minimum_plan ≠ "business" →
     require_plan minimum_plan (Some user) = PlanAccepted) ∧
  (public_plan user ≠ "pro" → public_plan user ≠ "business" →
     (require_plan minimum_plan (Some user) = PlanAccepted ↔
        minimum_plan ≠ "pro" ∧ minimum_plan ≠ "business")).
Proof.
  pose proof (plan_level_range minimum_plan) as Hm.
  pose proof (plan_level_range (public_plan user)) as Hu.
  unfold require_plan. split_and!.
  - case_decide; split; intros; try done; lia.
  - by case_decide.
  - intros Hb. rewrite Hb in *. change (plan_level "business") with 2 in *.
    rewrite decide_False; [done|lia].
  - intros H1 H2. assert (plan_level minimum_plan = 0) as -> by (by apply plan_level_zero).
    rewrite decide_False; [done|lia].
  - intros H1 H2. assert (plan_level (public_plan user) = 0) as -> by (by apply plan_level_zero).
    rewrite <- plan_level_zero. case_decide; split; intros; try done; lia.
Qed.

Lemma require_plan_levels_witness :
  require_plan "pro" (Some (without_password (sample_user "u1" "enterprise" 0 "2024-03-05")))
  = Forbidden403 "enterprise" "pro".
Proof.
  apply (require_plan_levels "pro" (without_password (sample_user "u1" "enterprise" 0 "2024-03-05"))).
  discriminate.
Defined.

Lemma split_on_cons sep s : ∃ w ws, split_on sep s = w :: ws.
Proof.
  induction s as [|c r (w & ws & IH)]; simpl; [by eexists _, _|].
  case_decide; [by eexists _, _|]. rewrite IH. by eexists _, _.
Qed.

Lemma split_on_head sep s : head (split_on sep s) = Some (split_head sep s).
Proof.
  induction s as [|c r IH]; simpl; [done|].
  case_decide; [done|].
  destruct (split_on sep r) as [|w ws]; simpl in *; [done|]. by injection IH as ->.
Qed.

Lemma extract_token_bearer t : extract_token ("Bearer " +:+ t) = Some (split_head " "%char t).
Proof.
  unfold extract_token.
  assert (String.prefix "Bearer " ("Bearer " +:+ t) = true) as -> by (by destruct t).
  pose proof (split_on_head " "%char t) as Hh.
  change ("Bearer " +:+ t)
    with (String "B" (String "e" (String "a" (String "r" (String "e" (String "r"
            (String " " t))))))).
  cbn [split_on].
  rewrite (decide_True (P := " "%char = " "%char)); [|done].
  rewrite !decide_False; [|discriminate..].
  destruct (split_on " "%char t) as [|w ws]; simpl in *; [done|]. by injection Hh as ->.
Qed.

Lemma prefix_app p h : String.prefix p h = true → ∃ t, h = p +:+ t.
Proof.
  revert h. induction p as [|a p IH]; intros h; simpl.
  - intros _. by exists h.
  - destruct h as [|b h]; [done|]. simpl.
    destruct (ascii_dec a b) as [->|]; [|done].
    intros (t & ->)%IH. by exists t.
Qed.

Lemma split_head_no_sep sep t : has_char sep t = false → split_head sep t = t.
Proof.
  induction t as [|c t IH]; simpl; [done|].
  intros [Hc Ht]%orb_false_iff. apply bool_decide_eq_false in Hc.
  rewrite decide_False; [|done]. by rewrite IH.
Qed.

Lemma extract_token_some h : extract_token h ≠ None.
Proof.
  destruct (String.prefix "Bearer " h) eqn:Hp.
  - apply prefix_app in Hp as (t & ->). by rewrite extract_token_bearer.
  - unfold extract_token. by rewrite Hp.
Qed.

(** X8.  The token [require_auth] takes from the header.  From
    'Bearer ' followed by [t] it takes [t] up to its first space, so [t]
    itself when [t] has no space; a header that does not start with
    'Bearer ' is taken whole; and the look-up of the second piece never
    fails, so the answer 'Invalid authorization header' is never given. *)
Theorem bearer_token_extracted :
  (∀ t, extract_token ("Bearer " +:+ t) = Some (split_head " "%char t)) ∧
  (∀ t, has_char " "%char t = false → extract_token ("Bearer " +:+ t) = Some t) ∧
  (∀ h, String.prefix "Bearer " h = false → extract_token h = Some h) ∧
  (∀ h, extract_token h ≠ None) ∧
  (∀ verify_token h, require_auth verify_token h ≠ Unauthorized401 "Invalid authorization header").
Proof.
  split_and!.
  - apply extract_token_bearer.
  - intros t Ht. by rewrite extract_token_bearer, split_head_no_sep.
  - intros h Hp. unfold extract_token. by rewrite Hp.
  - apply extract_token_some.
  - intros verify_token [h|]; simpl; [|done].
    case_decide; [done|]. pose proof (extract_token_some h) as Hsome.
    destruct (extract_token h) as [token|]; [|done].
    by destruct (get_user_by_token verify_token token []).
Qed.

Lemma bearer_token_extracted_witness :
  extract_token "Bearer eyJhbGciOi.payload.sig" = Some "eyJhbGciOi.payload.sig".
Proof.
  apply (proj1 (proj2 bearer_token_extracted) "eyJhbGciOi.payload.sig"). reflexivity.
Defined.

(** X9.  [require_auth] lets no request through.  The decorator looks the
    token's user up in an [AuthSystem] it has just built, whose store is
    empty, so whatever the header and whatever the token decodes to the
    answer is 401: 'No authorization header' for a missing or empty header
    and 'Invalid or expired token' for any other.  The same look-up on a
    store that files the email of the token does return that user's record
    without the password. *)
Theorem require_auth_rejects_all verify_token auth_header :
  require_auth verify_token auth_header
  = Unauthorized401 (match auth_header with
                     | None => "No authorization header"
                     | Some h => if decide (h = "") then "No authorization header"
                                 else "Invalid or expired token"
                     end) ∧
  (∀ user, require_auth verify_token auth_header ≠ Authenticated user) ∧
  (∀ token mail db u,
     verify_token token = Some mail → dict_get mail db = Some u →
     get_user_by_token verify_token token db = Some (without_password u)).
Proof.
  assert (require_auth verify_token auth_header
          = Unauthorized401 (match auth_header with
                             | None => "No authorization header"
                             | Some h => if decide (h = "") then "No authorization header"
                                         else "Invalid or expired token"
                             end)) as Hr.
  { destruct auth_header as [h|]; simpl; [|done].
    case_decide; [done|].
    pose proof (extract_token_some h) as Hsome.
    destruct (extract_token h) as [token|]; [|done].
    unfold get_user_by_token. by destruct (verify_token token). }
  split_and!; [done| |].
  - intros user. by rewrite Hr.
  - intros token mail db u Hv Hu. unfold get_user_by_token. by rewrite Hv, Hu.
Qed.

Lemma require_auth_rejects_all_witness :
  let db := sample_db "free" 0 "2024-03-05" in
  let verify := fun token : string => if decide (token = "good") then Some "u1@example.org" else None in
  get_user_by_token verify "good" db
  = Some (without_password (sample_user "u1" "free" 0 "2024-03-05")) ∧
  require_auth verify (Some "Bearer good") = Unauthorized401 "Invalid or expired token".
Proof.
  intros db verify. subst db verify.
  destruct (require_auth_rejects_all
              (fun token : string => if decide (token = "good") then Some "u1@example.org" else None)
              (Some "Bearer good")) as (H1 & _ & H3).
  split; [by apply (H3 "good" "u1@example.org")|exact H1].
Defined.

End DecoratorTheorems.

Section EndpointTheorems.
Import AuthSystem Endpoints.
Local Open Scope Z_scope.

(** X10.  [get_usage_analytics] uses up nothing of the quota, and answers 500
    once the quota is used up.  For a user whose window is today's the
    store is left as it is; below the limit the answer carries the limit,
    the used count and their difference, and at or above the limit the
    answer is 500, the denial of the rate check having no ['remaining'].
    For a user whose window is older the call performs the daily reset.
    For an unknown user the answer is 500. *)
Theorem usage_analytics_at_limit env today cu db :
  (∀ u, find_user (user_id cu) db = Some u → last_reset (usage u) = today →
     let limit := limits_get env (plan u) in
     let used := daily_count (usage u) in
     (get_usage_analytics env today cu db).1 = db ∧
     (used < limit →
        (get_usage_analytics env today cu db).2
        = AnalyticsOk (plan cu) (daily_count (usage cu)) (last_reset (usage cu))
                      limit used (limit - used)
                      (LLMManager.get_llm_for_user (plan cu))) ∧
     (used >= limit → (get_usage_analytics env today cu db).2 = AnalyticsFailed500)) ∧
  (∀ u, find_user (user_id cu) db = Some u → last_reset (usage u) ≠ today →
     find_user (user_id cu) (get_usage_analytics env today cu db).1
     = Some (set_usage u (mkUsage 0 today))) ∧
  (find_user (user_id cu) db = None →
     get_usage_analytics env today cu db = (db, AnalyticsFailed500)).
Proof.
  unfold get_usage_analytics. split_and!.
  - intros u Hfind Hday.
    destruct (find_user_split _ _ _ Hfind) as (pre & e & post & -> & Hpre & Hu).
    rewrite check_rate_limit_found; [|done..].
    unfold reset_if_needed. rewrite decide_False; [|naive_solver].
    rewrite set_usage_same. unfold rate_decision. cbv zeta.
    case_decide; (split_and!; [done|intros; try lia; done..]).
  - intros u Hfind Hday.
    destruct (find_user_split _ _ _ Hfind) as (pre & e & post & -> & Hpre & Hu).
    rewrite check_rate_limit_found; [|done..].
    unfold reset_if_needed. rewrite decide_True; [|done].
    destruct (rate_decision env _); by apply find_user_found.
  - intros Hnone. by rewrite check_rate_limit_missing.
Qed.

Lemma usage_analytics_at_limit_witness :
  get_usage_analytics default_limits "2024-03-05" (sample_user "u1" "free" 10 "2024-03-05")
                      (sample_db "free" 10 "2024-03-05")
  = (sample_db "free" 10 "2024-03-05", AnalyticsFailed500).
Proof.
  destruct (usage_analytics_at_limit default_limits "2024-03-05"
              (sample_user "u1" "free" 10 "2024-03-05") (sample_db "free" 10 "2024-03-05"))
    as (H & _ & _).
  destruct (H (sample_user "u1" "free" 10 "2024-03-05") eq_refl eq_refl) as (H1 & _ & H3).
  rewrite (surjective_pairing (get_usage_analytics _ _ _ _)), H1, H3; [reflexivity|].
  vm_compute. discriminate.
Defined.

(** The number of records with the plan [p]. *)
Lemma count_plans_known d (db : list (string * User)) :
  Forall (fun kv => plan kv.2 = "free" ∨ plan kv.2 = "pro" ∨ plan kv.2 = "business") db →
  count_plans d db
  = Some (mkDistribution
            (free_users d + Z.of_nat (length (filter (fun kv => plan kv.2 = "free") db)))
            (pro_users d + Z.of_nat (length (filter (fun kv => plan kv.2 = "pro") db)))
            (business_users d
             + Z.of_nat (length (filter (fun kv => plan kv.2 = "business") db)))).
Proof.
  intros Hknown. revert d.
  induction Hknown as [|[e u] db Hp _ IH]; intros d; simpl in *.
  - destruct d. simpl. by rewrite !Z.add_0_r.
  - unfold count_plan. rewrite !filter_cons. cbn [snd] in *.
    destruct Hp as [Hp|[Hp|Hp]]; rewrite Hp; simpl; rewrite IH; simpl;
      f_equal; f_equal; lia.
Qed.

Lemma count_plans_unknown d (db : list (string * User)) :
  Exists (fun kv => plan kv.2 ≠ "free" ∧ plan kv.2 ≠ "pro" ∧ plan kv.2 ≠ "business") db →
  count_plans d db = None.
Proof.
  intros Hbad. revert d.
  induction Hbad as [[e u] db (H1 & H2 & H3)|[e u] db _ IH]; intros d; simpl in *.
  - unfold count_plan. by rewrite !decide_False.
  - destruct (count_plan d (plan u)); [apply IH|done].
Qed.

(** X11.  [admin_dashboard] counts each user under one of the three plans, so
    when every plan is 'free', 'pro' or 'business' the three counts are the
    numbers of users on each plan and add up to the number of users.  One
    user with any other plan name makes the count raise, and the answer
    is 500; [update_user_plan] stores any name it is given, so a single
    change of plan to such a name takes the dashboard down. *)
Theorem dashboard_counts_plans (db : users_db) (ss : Sessions.sessions) :
  (Forall (fun kv => plan kv.2 = "free" ∨ plan kv.2 = "pro" ∨ plan kv.2 = "business") db →
     ∃ d, admin_dashboard db ss = DashboardOk (length db) d (length ss) ∧
          free_users d = Z.of_nat (length (filter (fun kv => plan kv.2 = "free") db)) ∧
          pro_users d = Z.of_nat (length (filter (fun kv => plan kv.2 = "pro") db)) ∧
          business_users d
          = Z.of_nat (length (filter (fun kv => plan kv.2 = "business") db)) ∧
          free_users d + pro_users d + business_users d = Z.of_nat (length db)) ∧
  (Exists (fun kv => plan kv.2 ≠ "free" ∧ plan kv.2 ≠ "pro" ∧ plan kv.2 ≠ "business") db →
     admin_dashboard db ss = DashboardFailed500) ∧
  (∀ uid u new_plan now_iso,
     find_user uid db = Some u →
     new_plan ≠ "free" → new_plan ≠ "pro" → new_plan ≠ "business" →
     admin_dashboard (update_user_plan uid new_plan now_iso db).1 ss = DashboardFailed500).
Proof.
  unfold admin_dashboard. split_and!.
  - intros Hknown. rewrite count_plans_known; [|done]. eexists. split; [done|].
    simpl. split_and!; [done..|].
    clear ss. induction Hknown as [|[e u] db Hp _ IH]; [done|].
    rewrite !filter_cons. cbn [snd] in *.
    destruct Hp as [Hp|[Hp|Hp]]; rewrite Hp; simpl in *; lia.
  - intros Hbad. by rewrite count_plans_unknown.
  - intros uid u new_plan now_iso Hfind H1 H2 H3.
    rewrite count_plans_unknown; [done|].
    clear ss. induction db as [|[e0 u0] db IH]; [done|]. simpl in *.
    case_decide.
    + simpl. apply Exists_cons_hd. by simpl.
    + specialize (IH Hfind). destruct (update_user_plan uid new_plan now_iso db).
      simpl in *. by apply Exists_cons_tl.
Qed.

Lemma dashboard_counts_plans_witness :
  admin_dashboard (sample_db "free" 0 "2024-03-05") []
  = DashboardOk 2 (mkDistribution 1 1 0) 0 ∧
  admin_dashboard (update_user_plan "u1" "enterprise" "2024-03-05T12:00:00"
                     (sample_db "free" 0 "2024-03-05")).1 []
  = DashboardFailed500.
Proof.
  destruct (dashboard_counts_plans (sample_db "free" 0 "2024-03-05") []) as (H1 & _ & H3).
  split.
  - reflexivity.
  - apply (H3 "u1" (sample_user "u1" "free" 0 "2024-03-05")); [reflexivity|discriminate..].
Defined.

End EndpointTheorems.

Section ThrottleTheorems.
Import LLMThrottle.
Local Open Scope Z_scope.


Lemma later_than_mono (a b : Q) (l : list Q) :
  (b <= a)%Q → (length (later_than a l) ≤ length (later_than b l))%nat.
Proof.
  intros Hba. unfold later_than. induction l as [|t l IH]; simpl; [done|].
  destruct (Qltb a t) eqn:Ha.
  - apply Qltb_true in Ha.
    assert (Qltb b t = true) as -> by (apply Qltb_true; by eapply Qle_lt_trans).
    simpl. lia.
  - destruct (Qltb b t); simpl; lia.
Qed.

Lemma later_than_idem since (l : list Q) : later_than since (later_than since l) = later_than since l.
Proof.
  unfold later_than. induction l as [|t l IH]; simpl; [done|].
  destruct (Qltb since t) eqn:Ha; simpl; [rewrite Ha; by f_equal|done].
Qed.

(** The model [get_llm_for_user] chooses always has a history and a limit. *)
Lemma llm_cases user_plan :
  let llm := LLMManager.get_llm_for_user user_plan in
  (llm = "gemini" ∧ max_requests llm = Some 15) ∨ (llm = "claude" ∧ max_requests llm = Some 50).
Proof. unfold LLMManager.get_llm_for_user. case_decide; [by right|by left]. Qed.

Lemma check_gemini t h :
  _check_rate_limit t "gemini" h
  = Some (mkHistory (later_than (t - 60) (gemini_history h)) (claude_history h),
          bool_decide (Z.of_nat (length (later_than (t - 60) (gemini_history h))) < 15)).
Proof. reflexivity. Qed.

Lemma check_claude t h :
  _check_rate_limit t "claude" h
  = Some (mkHistory (gemini_history h) (later_than (t - 60) (claude_history h)),
          bool_decide (Z.of_nat (length (later_than (t - 60) (claude_history h))) < 50)).
Proof. reflexivity. Qed.





(** X13.  [get_usage_stats] and [_check_rate_limit] agree.  Read at the same
    clock reading, the check passes exactly when the statistics report a
    positive ['remaining']; ['remaining'] and ['requests_per_minute'] add
    up to the limit of the model, the requests of the last minute are
    never more than those of the last hour, and the pruning the check
    performs does not change the requests of the last minute that the
    statistics report. *)
Theorem usage_stats_agree_with_check user_plan (current_time : Q) h :
  let llm := LLMManager.get_llm_for_user user_plan in
  ∃ h1 ok s,
    _check_rate_limit current_time llm h = Some (h1, ok) ∧
    get_usage_stats current_time llm h = Some s ∧
    (ok = true ↔ 0 < stats_remaining s) ∧
    stats_remaining s + Z.of_nat (stats_requests_per_minute s) = stats_rate_limit s ∧
    (stats_requests_per_minute s ≤ stats_requests_per_hour s)%nat ∧
    (stats_requests_per_minute <$> get_usage_stats current_time llm h1)
    = Some (stats_requests_per_minute s).
Proof.
  intros llm. subst llm.
  assert (current_time - 3600 <= current_time - 60)%Q as Hle.
  { unfold Qle, Qminus, Qplus, Qopp. simpl. lia. }
  destruct (llm_cases user_plan) as [[-> _]|[-> _]].
  - rewrite check_gemini. eexists _, _, _. split; [reflexivity|].
    split; [reflexivity|]. simpl. split_and!.
    + rewrite bool_decide_eq_true. lia.
    + lia.
    + by apply later_than_mono.
    + unfold get_usage_stats. simpl. by rewrite later_than_idem.
  - rewrite check_claude. eexists _, _, _. split; [reflexivity|].
    split; [reflexivity|]. simpl. split_and!.
    + rewrite bool_decide_eq_true. lia.
    + lia.
    + by apply later_than_mono.
    + unfold get_usage_stats. simpl. by rewrite later_than_idem.
Qed.

Lemma filter_above_length (text : list N) :
  (length (List.filter (fun c => N.ltb 12288 c) text) ≤ length text)%nat.
Proof. apply List.filter_length_le. Qed.

(** X14.  [estimate_tokens] lies between a quarter of the number of
    characters, rounded down, and the number of characters; it is the
    number of characters for a text all above U+3000 and a quarter of it for
    a text with none above.  So a text of fewer than 32000 characters is
    within the context window of every model name, known or not, and a
    text that is refused has at least as many characters as the limit of
    the model. *)
Theorem estimate_tokens_bounds (text : list N) :
  Z.of_nat (length text) / 4 <= estimate_tokens text <= Z.of_nat (length text) ∧
  (Forall (fun c => (12288 < c)%N) text → estimate_tokens text = Z.of_nat (length text)) ∧
  (Forall (fun c => (c <= 12288)%N) text → estimate_tokens text = Z.of_nat (length text) / 4) ∧
  (∀ llm, Z.of_nat (length text) < 32000 → check_context_window llm text = true) ∧
  (∀ llm, check_context_window llm text = false → context_limit llm <= Z.of_nat (length text)).
Proof.
  pose proof (filter_above_length text) as Hjp.
  assert (Z.of_nat (length text) / 4 <= estimate_tokens text <= Z.of_nat (length text)) as Hb.
  { unfold estimate_tokens.
    set (jp := length (List.filter (fun c => N.ltb 12288 c) text)) in *.
    set (n := length text) in *.
    pose proof (Z.div_mod (Z.of_nat n) 4 ltac:(lia)).
    pose proof (Z.mod_pos_bound (Z.of_nat n) 4 ltac:(lia)).
    pose proof (Z.div_mod (Z.of_nat n - Z.of_nat jp) 4 ltac:(lia)).
    pose proof (Z.mod_pos_bound (Z.of_nat n - Z.of_nat jp) 4 ltac:(lia)).
    lia. }
  assert (∀ llm, 32000 <= context_limit llm) as Hlim.
  { intros llm. unfold context_limit. repeat case_decide; lia. }
  split; [done|]. split_and!.
  - intros Hall. unfold estimate_tokens.
    assert (List.filter (fun c => N.ltb 12288 c) text = text) as ->.
    { clear Hjp Hb. induction Hall as [|c text Hc _ IH]; simpl; [done|].
      apply N.ltb_lt in Hc. rewrite Hc. by f_equal. }
    rewrite Z.sub_diag, Zdiv_0_l. lia.
  - intros Hall. unfold estimate_tokens.
    assert (List.filter (fun c => N.ltb 12288 c) text = []) as ->.
    { clear Hjp Hb. induction Hall as [|c text Hc _ IH]; simpl; [done|].
      apply N.ltb_ge in Hc. by rewrite Hc. }
    simpl. by rewrite Z.sub_0_r.
  - intros llm Hshort. unfold check_context_window. apply bool_decide_eq_true.
    specialize (Hlim llm). lia.
  - intros llm Hno. unfold check_context_window in Hno. apply bool_decide_eq_false in Hno. lia.
Qed.

Lemma estimate_tokens_bounds_witness :
  check_context_window "unknown-model" [12354%N; 12356%N; 97%N; 98%N; 99%N; 100%N] = true.
Proof.
  apply (estimate_tokens_bounds [12354%N; 12356%N; 97%N; 98%N; 99%N; 100%N]). reflexivity.
Defined.

End ThrottleTheorems.

Section CacheRunTheorems.
Import FastChatbot CacheReads.
Local Open Scope nat_scope.

Lemma get_cached_miss_cache ttl start_time now hit_time key c :
  (get_cached ttl start_time now hit_time key c).2 = None →
  (get_cached ttl start_time now hit_time key c).1 = c.
Proof.
  unfold get_cached. destruct (cache_lookup key c) as [e|]; [|done].
  by destruct (_is_cache_valid ttl now (cached_timestamp e)).
Qed.

(** X15.  A repeated query is answered from the cache.  When
    [process_query_fast] has answered a query with a fresh result, the same
    query of the same user within the time to live of that write is
    answered with the stored dictionary: it carries the answer, the
    confidence score and the context of the first result, whatever the
    model would have produced the second time, and is marked
    [from_cache].  The cache is within its bound and the clock has not gone
    back. *)
Theorem repeated_query_from_cache query_hash user_id
    start1 now1 hit1 result1 (put1 : Q) start2 now2 hit2 result2 put2 (c : cache) :
  length c ≤ cache_limit → not_after put1 c →
  (process_query_fast query_hash user_id start1 now1 hit1 result1 put1 c).2 = Fresh result1 →
  (now2 - put1 < cache_ttl)%Q →
  let c1 := (process_query_fast query_hash user_id start1 now1 hit1 result1 put1 c).1 in
  ∃ v, (process_query_fast query_hash user_id start2 now2 hit2 result2 put2 c1).2 = FromCache v ∧
       cached_answer v = answer result1 ∧
       cached_confidence_score v = confidence_score result1 ∧
       cached_context v = context result1 ∧
       cached_from_cache v = true.
Proof.
  intros Hlen Hclock Hfresh Hage c1. subst c1. unfold process_query_fast in *.
  set (key := _get_cache_key query_hash user_id) in *.
  pose proof (get_cached_miss_cache cache_ttl start1 now1 hit1 key c) as Hmiss.
  destruct (get_cached cache_ttl start1 now1 hit1 key c) as [c0 [v0|]]; [done|].
  simpl in Hmiss. rewrite Hmiss by done. cbn [fst].
  assert (cache_lookup key (put_cached key result1 put1 c) = Some (cached_of result1 put1))
    as Hkey.
  { apply put_cached_limit_lookup; [unfold cache_limit; lia|done..]. }
  rewrite (get_cached_hit _ _ _ _ _ _ _ Hkey Hage). cbn [snd].
  by exists (mark_hit (cached_of result1 put1) (hit2 - start2)).
Qed.

Lemma repeated_query_from_cache_witness :
  ∃ v, (process_query_fast 42 "u1" 1010 1010 1011 (sample_result "second") 1012
          (process_query_fast 42 "u1" 1000 1000 1000 (sample_result "first") 1001 []).1).2
       = FromCache v ∧
       cached_answer v = "first" ∧
       cached_confidence_score v = 0.8%Q ∧
       cached_context v = None ∧
       cached_from_cache v = true.
Proof.
  apply (repeated_query_from_cache 42 "u1" 1000 1000 1000 (sample_result "first") 1001
           1010 1010 1011 (sample_result "second") 1012 []).
  - simpl. unfold cache_limit. lia.
  - constructor.
  - reflexivity.
  - reflexivity.
Defined.

Lemma get_cached_timestamps ttl start_time now hit_time key key' c :
  cached_timestamp <$> cache_lookup key' (get_cached ttl start_time now hit_time key c).1
  = cached_timestamp <$> cache_lookup key' c.
Proof.
  unfold get_cached. destruct (cache_lookup key c) as [e|] eqn:Hkey; [|done].
  destruct (_is_cache_valid ttl now (cached_timestamp e)); [|done]. cbn [fst].
  destruct (decide (key = key')) as [<-|Hne].
  - by rewrite cache_lookup_store_eq, Hkey.
  - by rewrite cache_lookup_store_ne.
Qed.

Lemma get_many_timestamps ttl reads key' : ∀ c,
  cached_timestamp <$> cache_lookup key' (get_many ttl reads c)
  = cached_timestamp <$> cache_lookup key' c.
Proof.
  induction reads as [|[[[key start_time] now] hit_time] reads IH]; intros c; [done|].
  simpl. by rewrite IH, get_cached_timestamps.
Qed.

(** X16.  Reads do not prolong an entry.  A read leaves the timestamp of
    every entry as it was written, so whatever reads went before, a read
    at a time that is [ttl] or more after the write of the entry returns
    nothing. *)
Theorem reads_do_not_extend_lifetime ttl reads key (c : cache) e start_time now hit_time :
  cache_lookup key c = Some e →
  (ttl <= now - cached_timestamp e)%Q →
  (∀ key', cached_timestamp <$> cache_lookup key' (get_many ttl reads c)
           = cached_timestamp <$> cache_lookup key' c) ∧
  get_cached ttl start_time now hit_time key (get_many ttl reads c)
  = (get_many ttl reads c, None).
Proof.
  intros Hkey Hage. split; [intros; apply get_many_timestamps|].
  pose proof (get_many_timestamps ttl reads key c) as Hts. rewrite Hkey in Hts.
  destruct (cache_lookup key (get_many ttl reads c)) as [e'|] eqn:Hkey'; [|done].
  injection Hts as Hts. apply (get_cached_stale _ _ _ _ _ _ e'); [done|by rewrite Hts].
Qed.

Lemma reads_do_not_extend_lifetime_witness :
  let c := put_cached "u1:42" (sample_result "a") 1000 [] in
  let reads := [("u1:42", 1100%Q, 1100%Q, 1101%Q); ("u1:42", 1299%Q, 1299%Q, 1299%Q)] in
  get_cached cache_ttl 1300 1300 1300 "u1:42" (get_many cache_ttl reads c)
  = (get_many cache_ttl reads c, None).
Proof.
  intros c reads. subst c reads.
  apply (reads_do_not_extend_lifetime cache_ttl _ "u1:42" _ (cached_of (sample_result "a") 1000)).
  - reflexivity.
  - vm_compute. discriminate.
Defined.

Lemma pretty_N_go_no_colon x s :
  has_char ":"%char s = false → has_char ":"%char (pretty_N_go x s) = false.
Proof.
  revert s. induction (N.lt_wf_0 x) as [x _ IH]; intros s Hs.
  assert (x = 0 ∨ 0 < x)%N as [->|Hpos] by lia.
  - by rewrite pretty_N_go_0.
  - rewrite pretty_N_go_step by done. apply IH; [by apply N.div_lt|].
    simpl. rewrite Hs, orb_false_r. apply bool_decide_eq_false.
    unfold pretty_N_char. by repeat case_match.
Qed.

Lemma pretty_Z_no_colon (z : Z) : has_char ":"%char (pretty z) = false.
Proof.
  assert (∀ n : N, has_char ":"%char (pretty n) = false) as HN.
  { intros n. unfold pretty, pretty_N. case_decide; [done|].
    by apply pretty_N_go_no_colon. }
  destruct z as [|p|p]; [done|apply HN|].
  unfold pretty, pretty_Z. simpl. apply HN.
Qed.

Lemma colon_suffix_inj u1 u2 p1 p2 :
  has_char ":"%char p1 = false → has_char ":"%char p2 = false →
  u1 +:+ String ":"%char p1 = u2 +:+ String ":"%char p2 → u1 = u2 ∧ p1 = p2.
Proof.
  assert (∀ u p, has_char ":"%char (u +:+ String ":"%char p) = true) as Hcolon.
  { intros u p. induction u as [|c u IH]; simpl; [done|]. by rewrite IH, orb_true_r. }
  intros H1 H2. revert u2. induction u1 as [|c1 u1 IH]; intros [|c2 u2]; simpl; intros Heq.
  - by injection Heq as ->.
  - injection Heq as _ Heq. rewrite Heq, Hcolon in H1. done.
  - injection Heq as _ Heq. rewrite <- Heq, Hcolon in H2. done.
  - injection Heq as -> Heq. destruct (IH _ Heq) as [-> ->]. done.
Qed.

Lemma cache_lookup_delete_none key key' c :
  cache_lookup key' c = None → cache_lookup key' (cache_delete key c) = None.
Proof.
  induction c as [|[k w] c IH]; simpl; [done|].
  case_decide as Hk'; [done|]. intros Hnone.
  case_decide; simpl; [done|]. rewrite decide_False; [by apply IH|done].
Qed.

(** X17.  Cache entries are per user and per query.  The key determines the
    user id and the hash of the query, so two requests share a key only
    when both agree; and a write for one user and query never makes an
    entry appear under the key of another. *)
Theorem cache_key_injective h1 u1 h2 u2 :
  (_get_cache_key h1 u1 = _get_cache_key h2 u2 → u1 = u2 ∧ h1 = h2) ∧
  ((u1, h1) ≠ (u2, h2) →
   ∀ limit result now (c : cache),
     cache_lookup (_get_cache_key h2 u2) c = None →
     cache_lookup (_get_cache_key h2 u2)
                  (put_cached_limit limit (_get_cache_key h1 u1) result now c) = None).
Proof.
  assert (_get_cache_key h1 u1 = _get_cache_key h2 u2 → u1 = u2 ∧ h1 = h2) as Hinj.
  { unfold _get_cache_key. intros Heq.
    apply colon_suffix_inj in Heq as [-> Hp]; [|apply pretty_Z_no_colon..].
    split; [done|]. by apply (inj pretty). }
  split; [done|].
  intros Hne limit result now c Hnone. unfold put_cached_limit.
  assert (cache_lookup (_get_cache_key h2 u2)
            (cache_store (_get_cache_key h1 u1) (cached_of result now) c) = None) as Hstore.
  { rewrite cache_lookup_store_ne; [done|]. intros Heq. apply Hinj in Heq as [-> ->]. done. }
  case_decide; [|done].
  destruct (oldest_key _); [|done]. by apply cache_lookup_delete_none.
Qed.

Lemma cache_key_injective_witness :
  cache_lookup (_get_cache_key 42 "u2") (put_cached (_get_cache_key 42 "u1") (sample_result "a") 1000 [])
  = None.
Proof.
  apply (cache_key_injective 42 "u1" 42 "u2"); [discriminate|reflexivity].
Defined.

End CacheRunTheorems.

Section ValidatorTheorems.
Import Validators.
Local Open Scope nat_scope.

Lemma string_app_cons x (a b : string) : String x a +:+ b = String x (a +:+ b).
Proof. reflexivity. Qed.

Lemma all_chars_app p a b : all_chars p (a +:+ b) = all_chars p a && all_chars p b.
Proof.
  induction a as [|c a IH]; [done|].
  rewrite string_app_cons. simpl. by rewrite IH, andb_assoc.
Qed.

Lemma html_escape_no_markup c : all_chars (fun x => negb (markup x)) (html_escape c) = true.
Proof.
  unfold html_escape. repeat case_decide; try done.
  simpl. rewrite andb_true_r. apply negb_true_iff. unfold markup.
  by rewrite !bool_decide_eq_false_2.
Qed.

Lemma string_app_assoc (a b c : string) : (a +:+ b) +:+ c = a +:+ (b +:+ c).
Proof. induction a as [|x a IH]; [done|]. rewrite !string_app_cons. by f_equal. Qed.

Lemma sanitize_html_app a b : sanitize_html (a +:+ b) = sanitize_html a +:+ sanitize_html b.
Proof.
  induction a as [|c a IH]; [done|]. rewrite string_app_cons. simpl.
  by rewrite IH, string_app_assoc.
Qed.

(** X18.  What [sanitize_html] returns holds no double quote, no single
    quote, no [<] and no [>], whatever the text; it escapes a concatenation
    piece by piece; and it returns a text without [&], quotes, [<] and [>]
    as it is. *)
Theorem sanitize_html_no_markup text :
  all_chars (fun c => negb (markup c)) (sanitize_html text) = true ∧
  (∀ more, sanitize_html (text +:+ more) = sanitize_html text +:+ sanitize_html more) ∧
  (all_chars (fun c => negb (special c)) text = true → sanitize_html text = text).
Proof.
  split_and!.
  - induction text as [|c text IH]; simpl; [done|].
    by rewrite all_chars_app, html_escape_no_markup, IH.
  - intros more. apply sanitize_html_app.
  - induction text as [|c text IH]; simpl; [done|].
    intros [Hc Ht]%andb_true_iff. rewrite IH by done.
    apply negb_true_iff in Hc. unfold special in Hc.
    repeat (apply orb_false_iff in Hc as [Hc ?]).
    repeat match goal with H : bool_decide _ = false |- _ => apply bool_decide_eq_false in H end.
    unfold html_escape. by rewrite !decide_False by done.
Qed.

Lemma sanitize_html_no_markup_witness :
  sanitize_html "tax 2024" = "tax 2024".
Proof. apply (sanitize_html_no_markup "tax 2024"). reflexivity. Defined.

Lemma string_app_length (a b : string) :
  String.length (a +:+ b) = String.length a + String.length b.
Proof. induction a as [|x a IH]; [done|]. rewrite string_app_cons. simpl. by rewrite IH. Qed.

Lemma sanitize_html_length a : String.length a ≤ String.length (sanitize_html a).
Proof.
  induction a as [|c a IH]; simpl; [done|]. rewrite string_app_length.
  assert (1 ≤ String.length (html_escape c)); [|lia].
  unfold html_escape. repeat case_decide; simpl; lia.
Qed.

Lemma html_escape_cases c :
  (special c = true ∧ 2 ≤ String.length (html_escape c)) ∨
  (special c = false ∧ html_escape c = String c EmptyString).
Proof.
  unfold html_escape, special.
  destruct (decide (c = "&"%char)) as [->|H1]; [left; split; [reflexivity|vm_compute; lia]|].
  destruct (decide (c = dquote)) as [->|H2]; [left; split; [reflexivity|vm_compute; lia]|].
  destruct (decide (c = "'"%char)) as [->|H3]; [left; split; [reflexivity|vm_compute; lia]|].
  destruct (decide (c = ">"%char)) as [->|H4]; [left; split; [reflexivity|vm_compute; lia]|].
  destruct (decide (c = "<"%char)) as [->|H5]; [left; split; [reflexivity|vm_compute; lia]|].
  right. by rewrite !bool_decide_eq_false_2 by done.
Qed.

(** X19.  [sanitize_html] loses nothing: two texts with the same escaped
    form are the same text.  It is not idempotent: escaping twice gives
    the same as escaping once only for a text that needs no escaping. *)
Theorem sanitize_html_injective a b :
  (sanitize_html a = sanitize_html b → a = b) ∧
  (sanitize_html (sanitize_html a) = sanitize_html a →
   all_chars (fun c => negb (special c)) a = true).
Proof.
  assert (∀ a b, sanitize_html a = sanitize_html b → a = b) as Hinj.
  { clear a b. intros a. induction a as [|c1 a IH]; intros [|c2 b]; simpl.
    - done.
    - unfold html_escape. by repeat case_decide.
    - unfold html_escape. by repeat case_decide.
    - unfold html_escape. repeat case_decide; simpl; intros Heq; simplify_eq;
        try done; f_equal; by apply IH. }
  split; [apply Hinj|].
  intros Hidem. apply Hinj in Hidem.
  induction a as [|c a IH]; [done|]. simpl in Hidem.
  pose proof (sanitize_html_length a) as Hlen.
  destruct (html_escape_cases c) as [[_ Hlong]|[Hc He]].
  { apply (f_equal String.length) in Hidem.
    rewrite string_app_length in Hidem. simpl in Hidem. lia. }
  rewrite He, !string_app_cons in Hidem. injection Hidem as Hidem.
  simpl. rewrite Hc. simpl. by apply IH.
Qed.

Lemma sanitize_html_injective_witness :
  all_chars (fun c => negb (special c)) "plain" = true.
Proof. apply (sanitize_html_injective "plain" "plain"). reflexivity. Defined.

End ValidatorTheorems.

Section IdentifierTheorems.
Import Validators.
Local Open Scope nat_scope.

Lemma before_final_newline_snoc s : before_final_newline (s +:+ String newline EmptyString) = s.
Proof.
  induction s as [|c s IH]; [done|].
  rewrite string_app_cons. simpl. rewrite IH. by destruct s.
Qed.

Lemma before_final_newline_class s : all_chars id_char s = true → before_final_newline s = s.
Proof.
  induction s as [|c s IH]; [done|]. simpl.
  intros [Hc Hs]%andb_true_iff. destruct s as [|c' s].
  - case_decide; [subst; done|done].
  - by rewrite IH.
Qed.

Lemma before_final_newline_length s : String.length (before_final_newline s) ≤ String.length s.
Proof.
  induction s as [|c s IH]; [done|]. simpl. destruct s as [|c' s].
  - case_decide; simpl; lia.
  - simpl in *. lia.
Qed.

(** X20.  [validate_user_id] returns the id it is given, unchanged, and only
    when the id is not empty, has at most 100 characters, and consists of
    letters, digits, [_] and [-] up to an optional final newline.  An id of
    such characters is accepted, and so is the same id followed by one
    newline (within the length), the [$] of the pattern matching before a
    final newline; the newline is part of what is returned. *)
Theorem validate_user_id_accepts s :
  (∀ r, validate_user_id s = inr r →
     r = s ∧ s ≠ "" ∧ String.length s ≤ 100 ∧
     before_final_newline s ≠ "" ∧
     all_chars id_char (before_final_newline s) = true) ∧
  (s ≠ "" → all_chars id_char s = true → String.length s ≤ 100 →
     validate_user_id s = inr s) ∧
  (s ≠ "" → all_chars id_char s = true → String.length s ≤ 99 →
     validate_user_id (s +:+ String newline EmptyString)
     = inr (s +:+ String newline EmptyString)) ∧
  (validate_user_id "" = inl IdRequired).
Proof.
  unfold validate_user_id, matches_id. split_and!.
  - intros r. destruct (decide (s = "")) as [|He]; [done|].
    destruct (negb _) eqn:Hm; [done|].
    destruct (decide (100 < String.length s)) as [|Hl]; [done|].
    intros [= <-]. apply negb_false_iff, andb_true_iff in Hm as [Hne Hall].
    apply negb_true_iff, bool_decide_eq_false in Hne. split_and!; [done..|lia|done|done].
  - intros Hne Hall Hlen. rewrite decide_False by done.
    rewrite before_final_newline_class by done.
    rewrite bool_decide_eq_false_2 by done. rewrite Hall. simpl.
    by rewrite decide_False by lia.
  - intros Hne Hall Hlen.
    rewrite decide_False by (by destruct s).
    rewrite before_final_newline_snoc.
    rewrite bool_decide_eq_false_2 by done. rewrite Hall. simpl.
    rewrite decide_False; [done|]. rewrite string_app_length. simpl. lia.
  - done.
Qed.

Lemma validate_user_id_accepts_witness :
  validate_user_id ("user_1" +:+ String newline EmptyString)
  = inr ("user_1" +:+ String newline EmptyString).
Proof.
  apply (validate_user_id_accepts "user_1"); [discriminate|reflexivity|vm_compute; lia].
Defined.

(** X21.  [IPWhitelist] built from no list or from an empty list checks
    nothing: every address passes.  Built from a list with entries, a
    request passes exactly when its address, or 'unknown' for a request
    without a client, is one of the entries. *)
Theorem empty_whitelist_allows_all (client_host : option string) :
  check_ip (make_whitelist None) client_host = true ∧
  check_ip (make_whitelist (Some [])) client_host = true ∧
  (∀ l, l ≠ [] →
     (check_ip (make_whitelist (Some l)) client_host = true ↔
        default "unknown" client_host ∈ l)).
Proof.
  split_and!; [done..|].
  intros [|x l] Hne; [done|]. unfold make_whitelist, check_ip.
  rewrite bool_decide_eq_true. apply elem_of_list_to_set.
Qed.

Lemma empty_whitelist_allows_all_witness :
  check_ip (make_whitelist (Some ["10.0.0.1"])) None = false.
Proof.
  apply not_true_iff_false. intros H.
  apply (empty_whitelist_allows_all None) in H; [|discriminate].
  apply list_elem_of_singleton in H. discriminate.
Defined.

End IdentifierTheorems.

Section SlidingWindowTheorems.
Import RateLimiter SlidingWindow.

Lemma within_minute_app t (a b : list Q) :
  within_minute t (a ++ b) = within_minute t a ++ within_minute t b.
Proof. apply List.filter_app. Qed.

Lemma within_minute_later (t1 t2 : Q) (l : list Q) :
  (t1 <= t2)%Q → within_minute t2 (within_minute t1 l) = within_minute t2 l.
Proof.
  intros Hle. unfold within_minute, _clean_old_requests.
  induction l as [|x l IH]; simpl; [done|].
  destruct (Qltb (t1 - x) 60) eqn:H1; simpl; [by rewrite IH|].
  rewrite IH. apply Qltb_false in H1.
  assert (Qltb (t2 - x) 60 = false) as ->; [|done].
  apply Qltb_false. lra.
Qed.

Lemma check_many_cons cfg c t tm th more st :
  (check_many cfg ((c, t, tm, th) :: more) st).1
  = (check_many cfg more (check_rate_limit cfg c t tm th st).1).1.
Proof.
  cbn [check_many]. destruct (check_rate_limit cfg c t tm th st) as [st1 o].
  cbn [fst]. by destruct (check_many cfg more st1).
Qed.

Lemma tracks_step cfg client_id c t tm th st acc t0 :
  tracks client_id st acc t0 → (t0 <= t)%Q → (t <= tm)%Q → (tm <= th)%Q →
  tracks client_id (check_rate_limit cfg c t tm th st).1
         (acc ++ allowed_times cfg client_id [(c, t, tm, th)] st) th.
Proof.
  intros Htr H0 H1 H2 T HT. simpl.
  destruct (check_rate_limit_cases cfg c t tm th st)
    as [(_ & _ & Hr)|(_ & detail & Hr)]; rewrite Hr; simpl.
  - destruct (decide (c = client_id)) as [->|Hne].
    + rewrite bucket_insert_eq, !within_minute_app.
      fold (within_minute tm (bucket (minute_buckets st) client_id)).
      rewrite within_minute_later by lra. rewrite Htr by lra. done.
    + rewrite bucket_insert_ne by done. rewrite app_nil_r. apply Htr. lra.
  - rewrite app_nil_r. destruct (decide (c = client_id)) as [->|Hne].
    + rewrite bucket_insert_eq.
      fold (within_minute tm (bucket (minute_buckets st) client_id)).
      rewrite within_minute_later by lra. apply Htr. lra.
    + rewrite bucket_insert_ne by done. apply Htr. lra.
Qed.

Lemma allowed_times_cons cfg client_id call more st :
  allowed_times cfg client_id (call :: more) st
  = allowed_times cfg client_id [call] st
    ++ allowed_times cfg client_id more
         (check_rate_limit cfg call.1.1.1 call.1.1.2 call.1.2 call.2 st).1.
Proof.
  destruct call as [[[c t] tm] th]. simpl.
  destruct (check_rate_limit cfg c t tm th st) as [st1 [|detail]]; simpl; [|done].
  by case_decide.
Qed.

Lemma tracks_run cfg client_id before : ∀ rest st acc t0,
  tracks client_id st acc t0 →
  nondecreasing t0 (readings before ++ rest) →
  ∃ t1, tracks client_id (check_many cfg before st).1
               (acc ++ allowed_times cfg client_id before st) t1 ∧
        nondecreasing t1 rest.
Proof.
  induction before as [|[[[c t] tm] th] before IH]; intros rest st acc t0 Htr Hmono.
  - exists t0. simpl. by rewrite app_nil_r.
  - simpl in Hmono. destruct Hmono as (H0 & H1 & H2 & Hmono).
    pose proof (tracks_step cfg client_id c t tm th st acc t0 Htr H0 H1 H2) as Htr1.
    destruct (IH rest _ _ th Htr1 Hmono) as (t1 & Htr2 & Hrest).
    exists t1. split; [|done].
    rewrite check_many_cons, allowed_times_cons. simpl. by rewrite app_assoc.
Qed.

Lemma readings_app a b : readings (a ++ b) = readings a ++ readings b.
Proof.
  induction a as [|[[[c t] tm] th] a IH]; [done|]. simpl. by rewrite IH.
Qed.

(** X22.  The sliding window of [RateLimiter] holds over whole runs.  In a
    run of calls from the empty limiter whose clock readings never go
    back, whenever a request of a client is allowed, the requests of that
    client allowed before it and less than 60 seconds old at that moment
    are fewer than [requests_per_minute]: counting the request itself, no
    client gets more than [requests_per_minute] requests allowed within a
    minute. *)
Theorem at_most_limit_per_minute cfg before client_id (t tm th t0 : Q) :
  nondecreasing t0 (readings (before ++ [(client_id, t, tm, th)])) →
  (check_rate_limit cfg client_id t tm th (check_many cfg before initial).1).2 = Allowed →
  (Z.of_nat (length (within_minute tm (allowed_times cfg client_id before initial)))
   < requests_per_minute cfg)%Z.
Proof.
  intros Hmono Hallowed. rewrite readings_app in Hmono.
  destruct (tracks_run cfg client_id before (readings [(client_id, t, tm, th)])
              initial [] t0) as (t1 & Htr & Hrest); [done|done|].
  simpl in Hrest. destruct Hrest as (H1 & H2 & _).
  destruct (check_rate_limit_cases cfg client_id t tm th (check_many cfg before initial).1)
    as [(Hm & _ & _)|(_ & detail & Hr)].
  - unfold tracks in Htr. rewrite app_nil_l in Htr. rewrite <- (Htr tm) by lra. exact Hm.
  - rewrite Hr in Hallowed. done.
Qed.

Lemma at_most_limit_per_minute_witness :
  (Z.of_nat (length (within_minute 30
      (allowed_times (mkConfig 3 10) "10.0.0.1"
         [("10.0.0.1", 10%Q, 10%Q, 10%Q); ("10.0.0.2", 15%Q, 15%Q, 15%Q);
          ("10.0.0.1", 20%Q, 20%Q, 20%Q)] initial))) < 3)%Z.
Proof.
  apply (at_most_limit_per_minute (mkConfig 3 10)
           [("10.0.0.1", 10%Q, 10%Q, 10%Q); ("10.0.0.2", 15%Q, 15%Q, 15%Q);
            ("10.0.0.1", 20%Q, 20%Q, 20%Q)] "10.0.0.1" 30 30 30 0).
  - vm_compute. repeat split; discriminate.
  - vm_compute. reflexivity.
Defined.

End SlidingWindowTheorems.

Section GateInvariant.
Import AuthSystem.
Local Open Scope Z_scope.





End GateInvariant.
